(** * Engine: frame scheduler, render submission and shader-program pools

    A shallow embedding of [packages/core/src/Engine.ts].  The class is a
    stateful object that talks to a browser (animation frames, timers), to a
    clock, and to a number of collaborators whose code lives elsewhere
    (components manager, feature managers, cameras, class pools).  The
    embedding threads one [World] through a state-and-exception monad:

    - the fields of the [Engine] instance;
    - the scene objects, held by reference in a store, because the render
      pass sorts the camera array of the scene object in place;
    - the browser's table of pending animation-frame callbacks and timers;
    - the calls made to collaborators, recorded in order in a trace.

    A JavaScript [TypeError] (a property read on [null]) is an exception that
    keeps the side effects performed before it. *)

From stdpp Require Import base option list gmap strings.
From Stdlib Require Import ZArith Lia Sorting.Sorted Sorting.Permutation.
From Stdlib Require QArith.QArith_base QArith.Qround QArith.Qminmax.

#[local] Open Scope Z_scope.

Abbreviation Q := QArith_base.Q.

(** ** Data *)

(** Modelled from the spec: class [Time] ([./base]) is not part of the
    sources at hand.  [tick] measures the wall time elapsed since the previous
    tick (or since [reset]) into [deltaTime] and accumulates [elapsedTime];
    [reset] zeroes the elapsed accounting and takes a fresh reference point.
    Times are integers in the clock's unit. *)
Record Time := mkTime {
  deltaTime : Z;
  elapsedTime : Z;
  lastTickTime : Z
}.

Definition Time_new (now : Z) : Time :=
  {| deltaTime := 0; elapsedTime := 0; lastTickTime := now |}.

Definition Time_tick (now : Z) (t : Time) : Time :=
  let d := now - lastTickTime t in
  {| deltaTime := d; elapsedTime := elapsedTime t + d; lastTickTime := now |}.

Definition Time_reset (now : Z) (t : Time) : Time :=
  {| deltaTime := deltaTime t; elapsedTime := 0; lastTickTime := now |}.

(** A camera component, as far as the engine reads it: [camera.priority],
    [camera.enabled] and [camera.entity.isActiveInHierarchy].  [cameraId]
    stands for the identity of the object. *)
Record Camera := mkCamera {
  cameraId : nat;
  priority : Z;
  enabled : bool;
  isActiveInHierarchy : bool
}.

#[global] Instance Camera_eq_dec : EqDecision Camera.
Proof. solve_decision. Defined.

(** A scene object: its name and the array [_activeCameras]. *)
Record Scene := mkScene {
  sceneName : string;
  _activeCameras : list Camera
}.

Definition Scene_set_activeCameras (cs : list Camera) (s : Scene) : Scene :=
  {| sceneName := sceneName s; _activeCameras := cs |}.

(** The scene manager holds a reference to the active scene, or [null]. *)
Record SceneManager := mkSceneManager {
  _activeScene : option nat
}.

(** A [ShaderProgramPool] instance; two pools are the same object exactly
    when their allocation numbers agree. *)
Record ShaderProgramPool := mkPool { poolObject : nat }.

#[global] Instance ShaderProgramPool_eq_dec : EqDecision ShaderProgramPool.
Proof. solve_decision. Defined.

(** The one function the engine ever hands to the browser: the arrow
    function created for the field [_animate]. *)
Inductive Callback := CbAnimate.

Inductive PoolKind := RenderElementPool | SpriteElementPool.

(** Calls made to collaborators, in the order the engine makes them.
    [EngineFeature m args] is [engineFeatureManager.callFeatureMethod(this, m,
    [this, ...args])], with the scene arguments only; [SceneFeature] is the
    same on [Scene.sceneFeatureManager]. *)
Inductive Event :=
| TimeTick
| TimeReset
| ResetPool (p : PoolKind)
| RestPool (p : PoolKind)
| HardwareRendererInit (canvas : nat)
| EngineFeature (method : string) (sceneArgs : list (option nat))
| SceneFeature (method : string) (scene : nat) (c : Camera)
| CallScriptOnStart
| CallScriptOnUpdate (dt : Z)
| CallAnimationUpdate (dt : Z)
| CallScriptOnLateUpdate (dt : Z)
| CallRendererOnUpdate (dt : Z)
| CallComponentDestory
| CallCameraOnBeginRender (c : Camera)
| CallCameraOnEndRender (c : Camera)
| CameraRender (c : Camera)
| UpdateShaderData (scene : nat)
| LoggerDebug (msg : string)
| Trigger (type : string)
| SceneDestroy (scene : nat)
| ResourceGc
| RemoveAllEventListeners.

(** The fields of an [Engine] instance.  A field that [destroy] sets to
    [null] is an [option]. *)
Record Engine := mkEngine {
  _shaderProgramPools : list (option ShaderProgramPool);
  _canvas : option nat;
  _resourceManager : option unit;
  _sceneManager : option SceneManager;
  _vSyncCount : Z;
  _targetFrameRate : Q;
  _time : option Time;
  _isPaused : bool;
  _requestId : option nat;
  _timeoutId : option nat;
  _vSyncCounter : Z;
  _targetFrameInterval : Q;
  _animate_field : option Callback;
  features : list nat
}.

Definition set_shaderProgramPools v (e : Engine) : Engine :=
  mkEngine v (_canvas e) (_resourceManager e) (_sceneManager e) (_vSyncCount e)
    (_targetFrameRate e) (_time e) (_isPaused e) (_requestId e) (_timeoutId e)
    (_vSyncCounter e) (_targetFrameInterval e) (_animate_field e) (features e).
Definition set_canvas v (e : Engine) : Engine :=
  mkEngine (_shaderProgramPools e) v (_resourceManager e) (_sceneManager e) (_vSyncCount e)
    (_targetFrameRate e) (_time e) (_isPaused e) (_requestId e) (_timeoutId e)
    (_vSyncCounter e) (_targetFrameInterval e) (_animate_field e) (features e).
Definition set_resourceManager v (e : Engine) : Engine :=
  mkEngine (_shaderProgramPools e) (_canvas e) v (_sceneManager e) (_vSyncCount e)
    (_targetFrameRate e) (_time e) (_isPaused e) (_requestId e) (_timeoutId e)
    (_vSyncCounter e) (_targetFrameInterval e) (_animate_field e) (features e).
Definition set_sceneManager v (e : Engine) : Engine :=
  mkEngine (_shaderProgramPools e) (_canvas e) (_resourceManager e) v (_vSyncCount e)
    (_targetFrameRate e) (_time e) (_isPaused e) (_requestId e) (_timeoutId e)
    (_vSyncCounter e) (_targetFrameInterval e) (_animate_field e) (features e).
Definition set_vSyncCount v (e : Engine) : Engine :=
  mkEngine (_shaderProgramPools e) (_canvas e) (_resourceManager e) (_sceneManager e) v
    (_targetFrameRate e) (_time e) (_isPaused e) (_requestId e) (_timeoutId e)
    (_vSyncCounter e) (_targetFrameInterval e) (_animate_field e) (features e).
Definition set_time v (e : Engine) : Engine :=
  mkEngine (_shaderProgramPools e) (_canvas e) (_resourceManager e) (_sceneManager e)
    (_vSyncCount e) (_targetFrameRate e) v (_isPaused e) (_requestId e) (_timeoutId e)
    (_vSyncCounter e) (_targetFrameInterval e) (_animate_field e) (features e).
Definition set_isPaused v (e : Engine) : Engine :=
  mkEngine (_shaderProgramPools e) (_canvas e) (_resourceManager e) (_sceneManager e)
    (_vSyncCount e) (_targetFrameRate e) (_time e) v (_requestId e) (_timeoutId e)
    (_vSyncCounter e) (_targetFrameInterval e) (_animate_field e) (features e).
Definition set_requestId v (e : Engine) : Engine :=
  mkEngine (_shaderProgramPools e) (_canvas e) (_resourceManager e) (_sceneManager e)
    (_vSyncCount e) (_targetFrameRate e) (_time e) (_isPaused e) v (_timeoutId e)
    (_vSyncCounter e) (_targetFrameInterval e) (_animate_field e) (features e).
Definition set_timeoutId v (e : Engine) : Engine :=
  mkEngine (_shaderProgramPools e) (_canvas e) (_resourceManager e) (_sceneManager e)
    (_vSyncCount e) (_targetFrameRate e) (_time e) (_isPaused e) (_requestId e) v
    (_vSyncCounter e) (_targetFrameInterval e) (_animate_field e) (features e).
Definition set_vSyncCounter v (e : Engine) : Engine :=
  mkEngine (_shaderProgramPools e) (_canvas e) (_resourceManager e) (_sceneManager e)
    (_vSyncCount e) (_targetFrameRate e) (_time e) (_isPaused e) (_requestId e)
    (_timeoutId e) v (_targetFrameInterval e) (_animate_field e) (features e).
Definition set_animate v (e : Engine) : Engine :=
  mkEngine (_shaderProgramPools e) (_canvas e) (_resourceManager e) (_sceneManager e)
    (_vSyncCount e) (_targetFrameRate e) (_time e) (_isPaused e) (_requestId e)
    (_timeoutId e) (_vSyncCounter e) (_targetFrameInterval e) v (features e).
Definition set_features v (e : Engine) : Engine :=
  mkEngine (_shaderProgramPools e) (_canvas e) (_resourceManager e) (_sceneManager e)
    (_vSyncCount e) (_targetFrameRate e) (_time e) (_isPaused e) (_requestId e)
    (_timeoutId e) (_vSyncCounter e) (_targetFrameInterval e) (_animate_field e) v.

(** Everything the engine's methods read or write. *)
Record World := mkWorld {
  engine : Engine;
  (* scene objects, by reference *)
  scenes : gmap nat Scene;
  (* [engineFeatureManager._objects], module-level state *)
  featureObjects : list nat;
  (* the browser's pending animation-frame callbacks, oldest first *)
  rafCallbacks : list nat;
  (* the browser's pending timers: handle, callback ([null] allowed), delay in ms *)
  timers : list (nat * option Callback * Q);
  (* next handle the browser hands out; handles are never 0 *)
  nextHandle : nat;
  (* allocation counter for [new ShaderProgramPool()] *)
  nextPool : nat;
  (* what the wall clock reads *)
  wallClock : Z;
  trace : list Event
}.

Definition set_engine v (w : World) : World :=
  mkWorld v (scenes w) (featureObjects w) (rafCallbacks w) (timers w)
    (nextHandle w) (nextPool w) (wallClock w) (trace w).
Definition set_scenes v (w : World) : World :=
  mkWorld (engine w) v (featureObjects w) (rafCallbacks w) (timers w)
    (nextHandle w) (nextPool w) (wallClock w) (trace w).
Definition set_featureObjects v (w : World) : World :=
  mkWorld (engine w) (scenes w) v (rafCallbacks w) (timers w)
    (nextHandle w) (nextPool w) (wallClock w) (trace w).
Definition set_rafCallbacks v (w : World) : World :=
  mkWorld (engine w) (scenes w) (featureObjects w) v (timers w)
    (nextHandle w) (nextPool w) (wallClock w) (trace w).
Definition set_timers v (w : World) : World :=
  mkWorld (engine w) (scenes w) (featureObjects w) (rafCallbacks w) v
    (nextHandle w) (nextPool w) (wallClock w) (trace w).
Definition set_nextHandle v (w : World) : World :=
  mkWorld (engine w) (scenes w) (featureObjects w) (rafCallbacks w) (timers w)
    v (nextPool w) (wallClock w) (trace w).
Definition set_nextPool v (w : World) : World :=
  mkWorld (engine w) (scenes w) (featureObjects w) (rafCallbacks w) (timers w)
    (nextHandle w) v (wallClock w) (trace w).
Definition set_wallClock v (w : World) : World :=
  mkWorld (engine w) (scenes w) (featureObjects w) (rafCallbacks w) (timers w)
    (nextHandle w) (nextPool w) v (trace w).
Definition set_trace v (w : World) : World :=
  mkWorld (engine w) (scenes w) (featureObjects w) (rafCallbacks w) (timers w)
    (nextHandle w) (nextPool w) (wallClock w) v.

(** ** The monad *)

Inductive JsError := TypeError.

Inductive Outcome (A : Type) :=
| Ret (a : A) (w : World)
| Throw (err : JsError) (w : World).
Arguments Ret {A} a w.
Arguments Throw {A} err w.

Definition world_of {A} (o : Outcome A) : World :=
  match o with Ret _ w => w | Throw _ w => w end.

Definition returns {A} (o : Outcome A) : bool :=
  match o with Ret _ _ => true | Throw _ _ => false end.

Definition M (A : Type) : Type := World -> Outcome A.

#[global] Instance M_ret : MRet M := fun A a w => Ret a w.
#[global] Instance M_bind : MBind M := fun A B f m w =>
  match m w with
  | Ret a w' => f a w'
  | Throw err w' => Throw err w'
  end.

Definition throw {A} (err : JsError) : M A := fun w => Throw err w.
Definition this : M Engine := fun w => Ret (engine w) w.
Definition assign (f : Engine -> Engine) : M unit :=
  fun w => Ret tt (set_engine (f (engine w)) w).
Definition call (e : Event) : M unit :=
  fun w => Ret tt (set_trace (trace w ++ [e]) w).

(** Reading a property of [o]: a [TypeError] when [o] is [null]. *)
Definition deref {A} (o : option A) : M A :=
  match o with
  | Some a => mret a
  | None => throw TypeError
  end.

(** [for (let i = 0; i < l; i++) body(xs[i])]. *)
Fixpoint for_each {A} (body : A -> M unit) (xs : list A) : M unit :=
  match xs with
  | [] => mret tt
  | x :: rest => body x ;; for_each body rest
  end.

(** ** The browser *)

(** [requestAnimationFrame(cb)]: a [TypeError] when [cb] is not a function;
    otherwise the callback is queued under a fresh handle. *)
Definition requestAnimationFrame (cb : option Callback) : M nat :=
  match cb with
  | None => throw TypeError
  | Some _ => fun w =>
      let h := nextHandle w in
      Ret h (set_nextHandle (S h) (set_rafCallbacks (rafCallbacks w ++ [h]) w))
  end.

(** [cancelAnimationFrame(id)]: removes the callback queued under [id], if
    any; [undefined] names no callback. *)
Definition cancelAnimationFrame (id : option nat) : M unit := fun w =>
  match id with
  | Some h => Ret tt (set_rafCallbacks (filter (fun h' => h' ≠ h) (rafCallbacks w)) w)
  | None => Ret tt w
  end.

(** [window.setTimeout(cb, delay)]; a [null] handler is accepted and does
    nothing when the timer fires. *)
Definition setTimeout (cb : option Callback) (delay : Q) : M nat := fun w =>
  let h := nextHandle w in
  Ret h (set_nextHandle (S h) (set_timers (timers w ++ [(h, cb, delay)]) w)).

Definition clearTimeout (id : option nat) : M unit := fun w =>
  match id with
  | Some h => Ret tt (set_timers (filter (fun t => t.1.1 ≠ h) (timers w)) w)
  | None => Ret tt w
  end.

(** ** [Array.prototype.sort]

    The built-in sorts the array in place; since ECMAScript 2019 the sort is
    stable.  For a comparator that is a total preorder the result is thereby
    determined (see [stable_sorted_unique] below); insertion from the right
    computes it. *)
Section ArraySort.

Context {A : Type} (compareFn : A -> A -> Z).

(** [x] goes in front of the first element it does not compare greater
    than; it stood before all of [l] in the array, so equal elements keep
    their order. *)
Fixpoint sort_insert (x : A) (l : list A) : list A :=
  match l with
  | [] => [x]
  | y :: rest =>
      if compareFn x y <=? 0 then x :: y :: rest else y :: sort_insert x rest
  end.

Definition Array_sort (l : list A) : list A := foldr sort_insert [] l.

End ArraySort.

(** ** [Engine] *)

(** [time.tick()] and [time.reset()] on the clock object held in [_time]. *)
Definition Time_tick_m : M unit :=
  e ← this;
  time ← deref (_time e);
  now ← (fun w => Ret (wallClock w) w);
  assign (set_time (Some (Time_tick now time)));;
  call TimeTick.

Definition Time_reset_m : M unit :=
  e ← this;
  time ← deref (_time e);
  now ← (fun w => Ret (wallClock w) w);
  assign (set_time (Some (Time_reset now time)));;
  call TimeReset.

(** The scene object a reference points to. *)
Definition sceneObject (scene : nat) : M Scene := fun w =>
  match scenes w !! scene with
  | Some sc => Ret sc w
  | None => Throw TypeError w
  end.

(** [set vSyncCount(value)], for a finite number [value]: a double is a
    rational, and [Math.floor] and [Math.max] are exact on it.  [NaN] and
    the infinities, which the setter would store as they are, are not
    numbers of this model. *)
Definition vSyncCount_set (value : Q) : M unit :=
  assign (set_vSyncCount (Z.max 0 (Qround.Qfloor value))).


(** [pause()]. *)
Definition pause : M unit :=
  assign (set_isPaused true);;
  e ← this;
  cancelAnimationFrame (_requestId e);;
  clearTimeout (_timeoutId e).

(** [resume()].  The handle returned by [requestAnimationFrame] is dropped. *)
Definition resume : M unit :=
  e ← this;
  if negb (_isPaused e) then mret tt
  else
    assign (set_isPaused false);;
    Time_reset_m;;
    e ← this;
    _ ← requestAnimationFrame (_animate_field e);
    mret tt.

(** [_getShaderProgramPool(shader)], with [index = shader._shaderId].

    The array is a list of slots; an empty slot (a hole, read as
    [undefined]) is [None]. *)
Definition Array_get {A} (a : list (option A)) (index : nat) : option A :=
  mjoin (a !! index).

(** [a.length = n] for [n] below the length truncates. *)
Definition Array_truncate {A} (n : nat) (a : list (option A)) : list (option A) :=
  take n a.

(** [a[index] = v] writes in range and extends with holes out of range. *)
Definition Array_set {A} (a : list (option A)) (index : nat) (v : A)
  : list (option A) :=
  if decide (index < length a)%nat then <[index := Some v]> a
  else a ++ replicate (index - length a) None ++ [Some v].

Definition new_ShaderProgramPool : M ShaderProgramPool := fun w =>
  Ret (mkPool (nextPool w)) (set_nextPool (S (nextPool w)) w).

Definition _getShaderProgramPool (index : nat) : M ShaderProgramPool :=
  e ← this;
  let shaderProgramPools := _shaderProgramPools e in
  match Array_get shaderProgramPools index with
  | Some pool => mret pool
  | None =>
      let length_ := (index + 1)%nat in
      (if decide (length_ < length shaderProgramPools)%nat
       then assign (fun e => set_shaderProgramPools
                               (Array_truncate length_ (_shaderProgramPools e)) e)
       else mret tt);;
      pool ← new_ShaderProgramPool;
      assign (fun e => set_shaderProgramPools
                         (Array_set (_shaderProgramPools e) index pool) e);;
      mret pool
  end.

(** The body of the camera loop in [_render]. *)
Definition render_camera (scene : nat) (camera : Camera) : M unit :=
  if enabled camera && isActiveInHierarchy camera then
    call (CallCameraOnBeginRender camera);;
    call (SceneFeature "preRender" scene camera);;
    call (CameraRender camera);;
    call (SceneFeature "postRender" scene camera);;
    call (CallCameraOnEndRender camera)
  else mret tt.

(** [cameras.sort((camera1, camera2) => camera1.priority - camera2.priority)]
    on the array of the scene object. *)
Definition compareCameras (camera1 camera2 : Camera) : Z :=
  priority camera1 - priority camera2.

Definition sort_activeCameras (scene : nat) : M unit := fun w =>
  match scenes w !! scene with
  | Some sc =>
      Ret tt (set_scenes
                (<[scene := Scene_set_activeCameras
                              (Array_sort compareCameras (_activeCameras sc)) sc]>
                   (scenes w)) w)
  | None => Throw TypeError w
  end.

(** [_render(scene)]. *)
Definition _render (scene : nat) : M unit :=
  sc ← sceneObject scene;
  let cameras := _activeCameras sc in
  e ← this;
  time ← deref (_time e);
  let deltaTime := deltaTime time in
  call (CallRendererOnUpdate deltaTime);;
  call (UpdateShaderData scene);;
  if decide (0 < length cameras)%nat then
    sort_activeCameras scene;;
    sc ← sceneObject scene;
    for_each (render_camera scene) (_activeCameras sc);;
    call (RestPool RenderElementPool)
  else
    call (LoggerDebug "NO active camera.").

(** [update()]. *)
Definition update : M unit :=
  e ← this;
  time ← deref (_time e);
  let deltaTime := deltaTime time in
  Time_tick_m;;
  call (ResetPool RenderElementPool);;
  call (ResetPool SpriteElementPool);;
  e ← this;
  sm ← deref (_sceneManager e);
  call (EngineFeature "preTick" [_activeScene sm]);;
  e ← this;
  sm ← deref (_sceneManager e);
  let scene := _activeScene sm in
  match scene with
  | Some scene =>
      call CallScriptOnStart;;
      call (CallScriptOnUpdate deltaTime);;
      call (CallAnimationUpdate deltaTime);;
      call (CallScriptOnLateUpdate deltaTime);;
      _render scene
  | None => mret tt
  end;;
  call CallComponentDestory;;
  e ← this;
  sm ← deref (_sceneManager e);
  call (EngineFeature "postTick" [_activeScene sm]).

(** The arrow function [_animate]. *)
Definition _animate : M unit :=
  e ← this;
  if decide (_vSyncCount e ≠ 0) then
    id ← requestAnimationFrame (_animate_field e);
    assign (set_requestId (Some id));;
    e ← this;
    let counter := _vSyncCounter e in
    assign (set_vSyncCounter (counter + 1));;
    if decide (Z.rem counter (_vSyncCount e) = 0) then
      update;;
      assign (set_vSyncCounter 1)
    else mret tt
  else
    id ← setTimeout (_animate_field e) (_targetFrameInterval e);
    assign (set_timeoutId (Some id));;
    update.

(** [run()]. *)
Definition run : M unit :=
  call (EngineFeature "preLoad" []);;
  resume;;
  call (Trigger "run").

(** [destroy()]. *)
Definition destroy : M unit :=
  e ← this;
  match _sceneManager e with
  | None => mret tt
  | Some _ =>
      call (Trigger "shutdown");;
      call (EngineFeature "shutdown" []);;
      pause;;
      assign (set_animate None);;
      e ← this;
      sm ← deref (_sceneManager e);
      scene ← deref (_activeScene sm);
      call (SceneDestroy scene);;
      _ ← deref (_resourceManager e);
      call ResourceGc;;
      call CallComponentDestory;;
      assign (set_sceneManager None);;
      assign (set_resourceManager None);;
      assign (set_canvas None);;
      assign (set_features []);;
      assign (set_time None);;
      (fun w => Ret tt (set_featureObjects [] w));;
      call RemoveAllEventListeners
  end.

(** [new Engine(canvas, hardwareRenderer)], at wall-clock time [now]: the
    field initialisers and the constructor body.  The default scene is
    the object at reference [0]; the engine registers itself (as object [0])
    with the module-level feature manager.  The two white textures play no
    part in what follows and are left out. *)
Definition Engine_new (canvas : nat) (now : Z) : World :=
  {| engine :=
       {| _shaderProgramPools := [];
          _canvas := Some canvas;
          _resourceManager := Some tt;
          _sceneManager := Some {| _activeScene := Some 0%nat |};
          _vSyncCount := 1;
          _targetFrameRate := QArith_base.Qmake 60 1;
          _time := Some (Time_new now);
          _isPaused := true;
          _requestId := None;
          _timeoutId := None;
          _vSyncCounter := 1;
          _targetFrameInterval := QArith_base.Qmake 1000 60;
          _animate_field := Some CbAnimate;
          features := [] |};
     scenes := {[ 0%nat := {| sceneName := "DefaultScene"; _activeCameras := [] |} ]};
     featureObjects := [0%nat];
     rafCallbacks := [];
     timers := [];
     nextHandle := 1;
     nextPool := 0;
     wallClock := now;
     trace := [HardwareRendererInit canvas] |}.

(** ** The environment *)

(** The browser invokes a callback; an exception escaping from it is
    reported and does not stop the browser. *)
Definition invoke (cb : option Callback) : M unit := fun w =>
  match cb with
  | Some CbAnimate => Ret tt (world_of (_animate w))
  | None => Ret tt w
  end.

(** A display refresh at wall-clock time [now]: the browser takes the
    handles queued so far and, for each one still queued when its turn
    comes, removes it and invokes its callback.  Callbacks queued meanwhile
    wait for the next refresh. *)
Definition run_frame_callback (h : nat) : M unit := fun w =>
  if decide (h ∈ rafCallbacks w) then
    invoke (Some CbAnimate)
      (set_rafCallbacks (filter (fun h' => h' ≠ h) (rafCallbacks w)) w)
  else Ret tt w.

Definition refreshSignal (now : Z) : M unit := fun w =>
  for_each run_frame_callback (rafCallbacks w) (set_wallClock now w).

(** The timer with handle [h] expires at wall-clock time [now]. *)
Definition timerFires (h : nat) (now : Z) : M unit := fun w =>
  match list_find (fun t => t.1.1 = h) (timers w) with
  | Some (_, (_, cb, _)) =>
      invoke cb (set_timers (filter (fun t => t.1.1 ≠ h) (timers w))
                   (set_wallClock now w))
  | None => Ret tt w
  end.

(** What can happen to a scheduler, one thing at a time. *)
Inductive Op :=
| OpResume
| OpPause
| OpRefreshSignal (now : Z)
| OpTimerFires (h : nat) (now : Z).

Definition step (w : World) (op : Op) : World :=
  match op with
  | OpResume => world_of (resume w)
  | OpPause => world_of (pause w)
  | OpRefreshSignal now => world_of (refreshSignal now w)
  | OpTimerFires h now => world_of (timerFires h now w)
  end.

Definition exec (ops : list Op) (w : World) : World := foldl step w ops.

(** Logical frames executed so far: one clock tick per [update()]. *)
Definition is_tick (e : Event) : bool :=
  match e with TimeTick => true | _ => false end.

Definition frames (w : World) : nat := length (List.filter is_tick (trace w)).

(** * Vocabulary of the statements

    Closed forms of the calls a render pass and a frame make, observations
    on traces, invariants, and a few concrete engines. *)

(** The calls one camera receives in the loop of [_render]. *)
Definition camera_events (scene : nat) (camera : Camera) : list Event :=
  if enabled camera && isActiveInHierarchy camera then
    [CallCameraOnBeginRender camera;
     SceneFeature "preRender" scene camera;
     CameraRender camera;
     SceneFeature "postRender" scene camera;
     CallCameraOnEndRender camera]
  else [].

(** The calls made by [_render(scene)] when the clock shows [dt] and the
    scene's camera array is [cs]. *)
Definition render_events (dt : Z) (scene : nat) (cs : list Camera) : list Event :=
  CallRendererOnUpdate dt :: UpdateShaderData scene ::
  match cs with
  | [] => [LoggerDebug "NO active camera."]
  | _ => flat_map (camera_events scene) (Array_sort compareCameras cs)
         ++ [RestPool RenderElementPool]
  end.

(** The scene store after [_render(scene)]. *)
Definition render_scenes (scene : nat) (sc : Scene) (store : gmap nat Scene)
  : gmap nat Scene :=
  match _activeCameras sc with
  | [] => store
  | cs => <[scene := Scene_set_activeCameras (Array_sort compareCameras cs) sc]> store
  end.

(** The script, animation and late-update callbacks of a frame. *)
Definition lifecycle_events (dt : Z) : list Event :=
  [CallScriptOnStart; CallScriptOnUpdate dt; CallAnimationUpdate dt;
   CallScriptOnLateUpdate dt].

(** One logical frame in closed form: the calls of [update()] at wall-clock
    time [now] when the clock object is [t].  [active] is the active scene,
    if there is one: its reference and the object. *)
Definition frame_events (t : Time) (now : Z) (active : option (nat * Scene))
  : list Event :=
  [TimeTick; ResetPool RenderElementPool; ResetPool SpriteElementPool;
   EngineFeature "preTick" [fst <$> active]]
  ++ match active with
     | Some (scene, sc) =>
         lifecycle_events (deltaTime t)
         ++ render_events (deltaTime (Time_tick now t)) scene (_activeCameras sc)
     | None => []
     end
  ++ [CallComponentDestory; EngineFeature "postTick" [fst <$> active]].

(** The world after that frame. *)
Definition frame_world (t : Time) (active : option (nat * Scene)) (w : World)
  : World :=
  set_trace (trace w ++ frame_events t (wallClock w) active)
    (set_scenes (match active with
                 | Some (scene, sc) => render_scenes scene sc (scenes w)
                 | None => scenes w
                 end)
       (set_engine (set_time (Some (Time_tick (wallClock w) t)) (engine w)) w)).

(** [c1] may come before [c2] in a list ordered by ascending priority. *)
Definition priority_le (c1 c2 : Camera) : Prop := priority c1 <= priority c2.

(** The cameras of priority [p], in the order they have in [l]. *)
Definition with_priority (p : Z) (l : list Camera) : list Camera :=
  filter (fun c => priority c = p) l.

(** A camera is rendered only if it is enabled and its entity is active. *)
Definition renderable (c : Camera) : bool :=
  enabled c && isActiveInHierarchy c.

(** The camera a call is made for, if it is made for one. *)
Definition camera_of (e : Event) : option Camera :=
  match e with
  | CallCameraOnBeginRender c
  | SceneFeature _ _ c
  | CameraRender c
  | CallCameraOnEndRender c => Some c
  | _ => None
  end.

(** The cameras whose [render()] was called, in call order. *)
Fixpoint rendered (evs : list Event) : list Camera :=
  match evs with
  | [] => []
  | CameraRender c :: evs => c :: rendered evs
  | _ :: evs => rendered evs
  end.

(** Concrete engines.  The default scene holding the cameras [cs]. *)
Definition scene_with (cs : list Camera) : Scene :=
  {| sceneName := "DefaultScene"; _activeCameras := cs |}.

(** A fresh engine, created at time [0] on canvas [7], whose default scene
    has been given the cameras [cs]. *)
Definition engine_with_cameras (cs : list Camera) : World :=
  set_scenes (<[0%nat := scene_with cs]> (scenes (Engine_new 7 0))) (Engine_new 7 0).

(** A camera of priority [p]: renderable, disabled, or on an inactive
    entity. *)
Definition cam (id : nat) (p : Z) : Camera :=
  {| cameraId := id; priority := p; enabled := true; isActiveInHierarchy := true |}.

Definition cam_disabled (id : nat) (p : Z) : Camera :=
  {| cameraId := id; priority := p; enabled := false; isActiveInHierarchy := true |}.

Definition cam_inactive (id : nat) (p : Z) : Camera :=
  {| cameraId := id; priority := p; enabled := true; isActiveInHierarchy := false |}.

(** An engine whose active scene has been set to [null]. *)
Definition engine_without_scene : World :=
  set_engine (set_sceneManager (Some {| _activeScene := None |})
                (engine (Engine_new 7 0)))
    (set_wallClock 16 (Engine_new 7 0)).

(** An engine that has not been destroyed and whose active scene, if any,
    is a live object: [update()] runs to its end on it. *)
Definition alive (w : World) : bool :=
  match _time (engine w), _sceneManager (engine w) with
  | Some _, Some sm =>
      match _activeScene sm with
      | Some scene =>
          match scenes w !! scene with Some _ => true | None => false end
      | None => true
      end
  | _, _ => false
  end.

(** The world once [_animate], in refresh-driven mode, has queued the next
    request and counted the signal, before it decides on a frame. *)
Definition animate_armed (w : World) : World :=
  set_engine
    (set_vSyncCounter (_vSyncCounter (engine w) + 1)
       (set_requestId (Some (nextHandle w)) (engine w)))
    (set_nextHandle (S (nextHandle w))
       (set_rafCallbacks (rafCallbacks w ++ [nextHandle w]) w)).

(** The state of a loop that runs on the refresh signal with
    [vSyncCount = n]: one request is queued and the counter stands at [c]. *)
Definition pacing (n c : Z) (w : World) : Prop :=
  alive w = true
  /\ _animate_field (engine w) = Some CbAnimate
  /\ _vSyncCount (engine w) = n
  /\ _vSyncCounter (engine w) = c
  /\ exists h, rafCallbacks w = [h].

(** A running engine with [vSyncCount = 3]. *)
Definition engine_vsync3 : World :=
  world_of ((vSyncCount_set (QArith_base.Qmake 3 1) ;; resume) (Engine_new 7 0)).

(** The registry as its users rely on it: every pool in the array was made
    by an earlier [new ShaderProgramPool()], and no pool sits in two slots. *)
Definition registry_wf (w : World) : Prop :=
  (forall i p, Array_get (_shaderProgramPools (engine w)) i = Some p ->
               (poolObject p < nextPool w)%nat)
  /\ (forall i j p, Array_get (_shaderProgramPools (engine w)) i = Some p ->
                    Array_get (_shaderProgramPools (engine w)) j = Some p ->
                    i = j).

(** A world that differs from a fresh engine by its registry only. *)
Definition engine_with_pools (pools : list (option ShaderProgramPool)) (next : nat)
  : World :=
  set_nextPool next
    (set_engine (set_shaderProgramPools pools (engine (Engine_new 7 0)))
       (Engine_new 7 0)).

(** The world once [_animate], in timer mode, has armed the next timer,
    before it runs the frame. *)
Definition timer_armed (w : World) : World :=
  set_engine (set_timeoutId (Some (nextHandle w)) (engine w))
    (set_nextHandle (S (nextHandle w))
       (set_timers
          (timers w ++ [(nextHandle w, _animate_field (engine w),
                         _targetFrameInterval (engine w))]) w)).

(** The oldest pending timer expires at wall-clock time [now]. *)
Definition fire_pending_timer (w : World) (now : Z) : World :=
  match timers w with
  | (h, _, _) :: _ => world_of (timerFires h now w)
  | [] => w
  end.

(** The state of a loop that paces itself with a timer: [vSyncCount] is 0
    and one timer for [_animate] is pending, with delay [d]. *)
Definition timer_pacing (d : Q) (w : World) : Prop :=
  alive w = true
  /\ _animate_field (engine w) = Some CbAnimate
  /\ _vSyncCount (engine w) = 0
  /\ exists h, timers w = [(h, Some CbAnimate, d)].

(** A fresh engine switched to timer mode and started. *)
Definition engine_timer : World :=
  fire_pending_timer
    (exec [OpRefreshSignal 0]
       (world_of ((vSyncCount_set (QArith_base.Qmake 0 1) ;; resume) (Engine_new 7 0))))
    16.

(** A refresh signal or a timer expiry, as opposed to a call of [resume()]
    or [pause()]. *)
Definition is_signal (op : Op) : Prop :=
  match op with OpResume | OpPause => False | _ => True end.

(** An engine torn down by [destroy()]. *)
Definition destroyed (w : World) : Prop :=
  _time (engine w) = None
  /\ _animate_field (engine w) = None
  /\ _sceneManager (engine w) = None.




(** The calls one rendered camera receives, in order. *)
Definition camera_block (scene : nat) (camera : Camera) : list Event :=
  [CallCameraOnBeginRender camera;
   SceneFeature "preRender" scene camera;
   CameraRender camera;
   SceneFeature "postRender" scene camera;
   CallCameraOnEndRender camera].

(** A call made for a camera. *)
Definition is_camera_call (e : Event) : bool :=
  match camera_of e with Some _ => true | None => false end.

(** * Verification *)

(** ** Reasoning about the monad *)

Ltac unfold_monad :=
  unfold mbind, M_bind, mret, M_ret, call, assign, this, deref, throw in *.

Lemma set_trace_same (w : World) : set_trace (trace w) w = w.
Proof. by destruct w. Qed.

(** Successive writes to the trace collapse. *)
Lemma set_trace_set_trace u v (w : World) :
  set_trace v (set_trace u w) = set_trace v w.
Proof. reflexivity. Qed.

Lemma set_trace_set_scenes_set_trace u v s (w : World) :
  set_trace v (set_scenes s (set_trace u w)) = set_trace v (set_scenes s w).
Proof. reflexivity. Qed.

Lemma bind_Ret {A B} (m : M A) (f : A -> M B) (w w' : World) (a : A) :
  m w = Ret a w' -> (m ≫= f) w = f a w'.
Proof. intros H. unfold mbind, M_bind. by rewrite H. Qed.

Lemma bind_Throw {A B} (m : M A) (f : A -> M B) (w w' : World) err :
  m w = Throw err w' -> (m ≫= f) w = Throw err w'.
Proof. intros H. unfold mbind, M_bind. by rewrite H. Qed.

(** ** The render pass in closed form *)

Lemma for_each_render_camera scene (cs : list Camera) (w : World) :
  for_each (render_camera scene) cs w
  = Ret tt (set_trace (trace w ++ flat_map (camera_events scene) cs) w).
Proof.
  revert w. induction cs as [|c cs IH]; intros w; simpl.
  - by rewrite app_nil_r, set_trace_same.
  - unfold render_camera, camera_events.
    destruct (enabled c && isActiveInHierarchy c); unfold_monad; simpl.
    + rewrite IH. simpl. unfold set_trace; simpl.
      by rewrite <- !app_assoc.
    + rewrite IH. done.
Qed.

Lemma _render_eq (w : World) (scene : nat) (sc : Scene) (t : Time) :
  _time (engine w) = Some t ->
  scenes w !! scene = Some sc ->
  _render scene w
  = Ret tt (set_trace (trace w ++ render_events (deltaTime t) scene (_activeCameras sc))
              (set_scenes (render_scenes scene sc (scenes w)) w)).
Proof.
  intros Ht Hsc. unfold _render, sceneObject, sort_activeCameras, render_events,
    render_scenes.
  unfold_monad. rewrite Hsc, Ht. simpl.
  destruct (_activeCameras sc) as [|c cs] eqn:Hcs; simpl.
  - destruct w; unfold set_trace, set_scenes; simpl. by rewrite <- !app_assoc.
  - rewrite Hsc. simpl. rewrite lookup_insert_eq. simpl.
    rewrite Hcs. rewrite for_each_render_camera. simpl.
    unfold set_trace; simpl. by rewrite <- !app_assoc.
Qed.

Lemma update_eq_no_scene (w : World) (t : Time) (sm : SceneManager) :
  _time (engine w) = Some t ->
  _sceneManager (engine w) = Some sm ->
  _activeScene sm = None ->
  update w = Ret tt (frame_world t None w).
Proof.
  intros Ht Hsm Hsc. unfold update, Time_tick_m. unfold_monad.
  repeat (simpl; rewrite ?Ht, ?Hsm, ?Hsc).
  rewrite !set_trace_set_trace. unfold frame_world, frame_events.
  f_equal. destruct w as [e ? ? ? ? ? ? ? ?]; unfold set_trace, set_scenes; simpl.
  f_equal. by rewrite <- !app_assoc.
Qed.

Lemma update_eq_scene (w : World) (t : Time) (sm : SceneManager) scene sc :
  _time (engine w) = Some t ->
  _sceneManager (engine w) = Some sm ->
  _activeScene sm = Some scene ->
  scenes w !! scene = Some sc ->
  update w = Ret tt (frame_world t (Some (scene, sc)) w).
Proof.
  intros Ht Hsm Hact Hsc. unfold update, Time_tick_m. unfold_monad.
  repeat (simpl; rewrite ?Ht, ?Hsm, ?Hact).
  erewrite _render_eq; [|simpl; reflexivity|simpl; exact Hsc].
  repeat (simpl; rewrite ?Hsm, ?Hact).
  rewrite !set_trace_set_trace, set_trace_set_scenes_set_trace.
  unfold frame_world, frame_events, lifecycle_events.
  f_equal. destruct w as [e ? ? ? ? ? ? ? ?]; unfold set_trace, set_scenes; simpl.
  f_equal. by rewrite <- !app_assoc.
Qed.

(** ** The camera sort *)

Lemma compareCameras_le (c1 c2 : Camera) :
  (compareCameras c1 c2 <=? 0) = true <-> priority_le c1 c2.
Proof. unfold compareCameras, priority_le. rewrite Z.leb_le. lia. Qed.

Lemma sort_insert_perm (c : Camera) (l : list Camera) :
  Permutation (sort_insert compareCameras c l) (c :: l).
Proof.
  induction l as [|y l IH]; simpl; [done|].
  destruct (compareCameras c y <=? 0); [done|].
  rewrite IH. apply perm_swap.
Qed.

Lemma Array_sort_perm (l : list Camera) :
  Permutation (Array_sort compareCameras l) l.
Proof.
  induction l as [|c l IH]; simpl; [done|].
  rewrite sort_insert_perm. by constructor.
Qed.

Lemma sort_insert_sorted (c : Camera) (l : list Camera) :
  StronglySorted priority_le l ->
  StronglySorted priority_le (sort_insert compareCameras c l).
Proof.
  induction 1 as [|y l Hl IH Hy]; simpl.
  - repeat constructor.
  - destruct (compareCameras c y <=? 0) eqn:Hcmp.
    + apply compareCameras_le in Hcmp.
      constructor; [by constructor|].
      constructor; [done|].
      eapply Forall_impl; [exact Hy|].
      unfold priority_le in *. intros; lia.
    + assert (priority y < priority c) as Hlt.
      { unfold compareCameras in Hcmp. apply Z.leb_gt in Hcmp. lia. }
      constructor; [done|].
      rewrite sort_insert_perm. constructor; [|done].
      unfold priority_le. lia.
Qed.

Lemma Array_sort_sorted (l : list Camera) :
  StronglySorted priority_le (Array_sort compareCameras l).
Proof.
  induction l as [|c l IH]; simpl; [constructor|].
  by apply sort_insert_sorted.
Qed.

Lemma sort_insert_stable (p : Z) (c : Camera) (l : list Camera) :
  with_priority p (sort_insert compareCameras c l) = with_priority p (c :: l).
Proof.
  unfold with_priority.
  induction l as [|y l IH]; simpl; [done|].
  destruct (compareCameras c y <=? 0) eqn:Hcmp; [done|].
  assert (priority y < priority c) as Hlt.
  { unfold compareCameras in Hcmp. apply Z.leb_gt in Hcmp. lia. }
  rewrite (filter_cons _ y), IH, !filter_cons.
  repeat case_decide; try done; lia.
Qed.

Lemma Array_sort_stable (p : Z) (l : list Camera) :
  with_priority p (Array_sort compareCameras l) = with_priority p l.
Proof.
  induction l as [|c l IH]; simpl; [done|].
  rewrite sort_insert_stable. unfold with_priority in *.
  by rewrite !filter_cons, IH.
Qed.

Lemma Array_sort_of_sorted (l : list Camera) :
  StronglySorted priority_le l -> Array_sort compareCameras l = l.
Proof.
  induction 1 as [|c l Hl IH Hc]; simpl; [done|].
  rewrite IH. destruct l as [|y l]; simpl; [done|].
  apply Forall_cons in Hc as [Hcy _].
  apply compareCameras_le in Hcy. by rewrite Hcy.
Qed.

Lemma Array_sort_idempotent (l : list Camera) :
  Array_sort compareCameras (Array_sort compareCameras l)
  = Array_sort compareCameras l.
Proof. apply Array_sort_of_sorted, Array_sort_sorted. Qed.

(** Ascending order and stability leave no choice: whatever algorithm the
    built-in uses, its result is the one [Array_sort] computes. *)
Lemma stable_sorted_unique (l1 l2 : list Camera) :
  StronglySorted priority_le l1 ->
  StronglySorted priority_le l2 ->
  (forall p, with_priority p l1 = with_priority p l2) ->
  l1 = l2.
Proof.
  intros H1. revert l2.
  induction H1 as [|a l1 Hl1 IH Ha]; intros l2 H2 Heq.
  - destruct l2 as [|b l2]; [done|].
    specialize (Heq (priority b)). unfold with_priority in Heq.
    rewrite filter_cons_True in Heq by done. done.
  - destruct H2 as [|b l2 Hl2 Hb].
    { specialize (Heq (priority a)). unfold with_priority in Heq.
      rewrite filter_cons_True in Heq by done. done. }
    assert (priority a = priority b) as Hab.
    { assert (a ∈ b :: l2) as Ha2.
      { pose proof (Heq (priority a)) as E. unfold with_priority in E.
        rewrite (filter_cons_True _ a) in E by done.
        assert (a ∈ filter (fun c => priority c = priority a) (b :: l2)) as Hin
          by (rewrite <- E; left).
        by apply list_elem_of_filter in Hin as [_ ?]. }
      assert (b ∈ a :: l1) as Hb1.
      { pose proof (Heq (priority b)) as E. unfold with_priority in E.
        rewrite (filter_cons_True _ b) in E by done.
        assert (b ∈ filter (fun c => priority c = priority b) (a :: l1)) as Hin
          by (rewrite E; left).
        by apply list_elem_of_filter in Hin as [_ ?]. }
      assert (priority b <= priority a).
      { apply elem_of_cons in Ha2 as [->|Ha2]; [lia|].
        rewrite Forall_forall in Hb. by apply Hb. }
      assert (priority a <= priority b).
      { apply elem_of_cons in Hb1 as [->|Hb1]; [lia|].
        rewrite Forall_forall in Ha. by apply Ha. }
      lia. }
    assert (a = b) as ->.
    { pose proof (Heq (priority a)) as E. unfold with_priority in E.
      rewrite (filter_cons_True _ a) in E by done.
      rewrite (filter_cons_True _ b) in E by done.
      by injection E. }
    f_equal. apply IH; [done|]. intros p.
    pose proof (Heq p) as E. unfold with_priority in *.
    rewrite !filter_cons in E. case_decide; [by injection E|done].
Qed.

(** ** The render pass: order, skipped cameras, in-place sort *)

Lemma rendered_app (evs1 evs2 : list Event) :
  rendered (evs1 ++ evs2) = rendered evs1 ++ rendered evs2.
Proof.
  induction evs1 as [|e evs1 IH]; simpl; [done|].
  destruct e; simpl; by rewrite ?IH.
Qed.

Lemma rendered_camera_events scene (cs : list Camera) :
  rendered (flat_map (camera_events scene) cs) = List.filter renderable cs.
Proof.
  induction cs as [|c cs IH]; simpl; [done|].
  rewrite rendered_app, IH. unfold camera_events, renderable.
  by destruct (enabled c && isActiveInHierarchy c).
Qed.

Lemma rendered_render_events dt scene (cs : list Camera) :
  rendered (render_events dt scene cs)
  = List.filter renderable (Array_sort compareCameras cs).
Proof.
  unfold render_events. destruct cs as [|c cs]; [done|].
  cbn [rendered]. rewrite rendered_app, rendered_camera_events.
  simpl. by rewrite app_nil_r.
Qed.

Lemma camera_events_renderable scene (cs : list Camera) (e : Event) (c : Camera) :
  e ∈ flat_map (camera_events scene) cs ->
  camera_of e = Some c ->
  c ∈ cs /\ renderable c = true.
Proof.
  induction cs as [|c' cs IH]; simpl; [by intros ?%elem_of_nil|].
  intros [Hin|Hin]%elem_of_app Hc.
  - unfold camera_events in Hin. fold (renderable c') in Hin.
    destruct (renderable c') eqn:Hr; [|by apply elem_of_nil in Hin].
    assert (c = c') as ->; [|split; [left|done]].
    repeat (apply elem_of_cons in Hin as [->|Hin]; [simpl in Hc; congruence|]).
    by apply elem_of_nil in Hin.
  - destruct (IH Hin Hc). split; [by right|done].
Qed.

Lemma render_events_renderable dt scene (cs : list Camera) (e : Event) (c : Camera) :
  e ∈ render_events dt scene cs ->
  camera_of e = Some c ->
  c ∈ cs /\ renderable c = true.
Proof.
  unfold render_events. intros Hin Hc.
  apply elem_of_cons in Hin as [->|Hin]; [done|].
  apply elem_of_cons in Hin as [->|Hin]; [done|].
  destruct cs as [|c0 cs].
  { apply elem_of_cons in Hin as [->|Hin]; [done|]. by apply elem_of_nil in Hin. }
  apply elem_of_app in Hin as [Hin|Hin].
  - destruct (camera_events_renderable _ _ _ _ Hin Hc) as [Hmem Hr].
    split; [|done]. by rewrite Array_sort_perm in Hmem.
  - apply elem_of_cons in Hin as [->|Hin]; [done|]. by apply elem_of_nil in Hin.
Qed.

(** The state a render pass leaves behind. *)
Lemma _render_scene_after (w : World) scene sc t :
  _time (engine w) = Some t ->
  scenes w !! scene = Some sc ->
  exists w',
    _render scene w = Ret tt w'
    /\ engine w' = engine w
    /\ trace w' = trace w ++ render_events (deltaTime t) scene (_activeCameras sc)
    /\ scenes w' !! scene
       = Some (Scene_set_activeCameras
                 (Array_sort compareCameras (_activeCameras sc)) sc)
    /\ forall other, other ≠ scene -> scenes w' !! other = scenes w !! other.
Proof.
  intros Ht Hsc. eexists. split; [by apply _render_eq|].
  simpl. repeat split; try done.
  - unfold render_scenes. destruct (_activeCameras sc) eqn:Hcs.
    + rewrite Hsc. f_equal. destruct sc; simpl in *. by subst.
    + by rewrite lookup_insert_eq.
  - intros other Hne. unfold render_scenes.
    destruct (_activeCameras sc); [done|]. by rewrite lookup_insert_ne.
Qed.

(** C5. The render pass visits the cameras of the scene in ascending order
    of [priority]: the cameras rendered by a pass are the renderable ones of
    the sorted array, in that order.  The sorted array is ordered by
    priority, holds the same cameras as before, and keeps cameras of equal
    priority in the relative order they had; a second pass over the same
    scene renders them in the same order again. *)
Theorem render_pass_priority_order (w : World) (scene : nat) (sc : Scene) (t : Time) :
  _time (engine w) = Some t ->
  scenes w !! scene = Some sc ->
  let order := Array_sort compareCameras (_activeCameras sc) in
  exists w1 w2,
    _render scene w = Ret tt w1
    /\ _render scene w1 = Ret tt w2
    /\ rendered (trace w1) = rendered (trace w) ++ List.filter renderable order
    /\ rendered (trace w2) = rendered (trace w1) ++ List.filter renderable order
    /\ StronglySorted priority_le order
    /\ Permutation order (_activeCameras sc)
    /\ forall p, with_priority p order = with_priority p (_activeCameras sc).
Proof.
  intros Ht Hsc order.
  destruct (_render_scene_after w scene sc t Ht Hsc)
    as (w1 & Hr1 & He1 & Htr1 & Hsc1 & _).
  assert (_time (engine w1) = Some t) as Ht1 by by rewrite He1.
  destruct (_render_scene_after w1 scene _ t Ht1 Hsc1)
    as (w2 & Hr2 & _ & Htr2 & _ & _).
  exists w1, w2. repeat split; try done.
  - by rewrite Htr1, rendered_app, rendered_render_events.
  - rewrite Htr2, rendered_app, rendered_render_events. simpl.
    by rewrite Array_sort_idempotent.
  - apply Array_sort_sorted.
  - apply Array_sort_perm.
  - intros p. apply Array_sort_stable.
Qed.

Lemma render_pass_priority_order_witness :
  let order := Array_sort compareCameras [cam 0 3; cam 1 1; cam 2 2] in
  exists w1 w2,
    _render 0 (engine_with_cameras [cam 0 3; cam 1 1; cam 2 2]) = Ret tt w1
    /\ _render 0 w1 = Ret tt w2
    /\ rendered (trace w1)
       = rendered (trace (engine_with_cameras [cam 0 3; cam 1 1; cam 2 2]))
         ++ List.filter renderable order
    /\ rendered (trace w2) = rendered (trace w1) ++ List.filter renderable order
    /\ StronglySorted priority_le order
    /\ Permutation order [cam 0 3; cam 1 1; cam 2 2]
    /\ forall p, with_priority p order = with_priority p [cam 0 3; cam 1 1; cam 2 2].
Proof.
  apply (render_pass_priority_order
           (engine_with_cameras [cam 0 3; cam 1 1; cam 2 2]) 0
           (scene_with [cam 0 3; cam 1 1; cam 2 2]) (Time_new 0));
    reflexivity.
Defined.

(** Priorities [3, 1, 2] render in the order [1, 2, 3]; two cameras of
    priority [2] both render, the earlier one first, pass after pass. *)
Example render_order_3_1_2 :
  rendered (trace (world_of (_render 0 (engine_with_cameras [cam 0 3; cam 1 1; cam 2 2]))))
  = [cam 1 1; cam 2 2; cam 0 3].
Proof. reflexivity. Qed.

Example render_order_2_2 :
  let w1 := world_of (_render 0 (engine_with_cameras [cam 0 2; cam 1 2])) in
  let w2 := world_of (_render 0 w1) in
  rendered (trace w1) = [cam 0 2; cam 1 2]
  /\ rendered (trace w2) = [cam 0 2; cam 1 2; cam 0 2; cam 1 2].
Proof. split; reflexivity. Qed.

(** C6. In a render pass, no begin-render hook, pre- or post-render feature
    hook, render call or end-render hook is made for a camera that is
    disabled or whose entity is not active in the hierarchy. *)
Theorem render_pass_skips_disabled (w : World) (scene : nat) (sc : Scene) (t : Time) :
  _time (engine w) = Some t ->
  scenes w !! scene = Some sc ->
  exists w' evs,
    _render scene w = Ret tt w'
    /\ trace w' = trace w ++ evs
    /\ forall c e,
         enabled c = false \/ isActiveInHierarchy c = false ->
         e ∈ evs -> camera_of e ≠ Some c.
Proof.
  intros Ht Hsc.
  destruct (_render_scene_after w scene sc t Ht Hsc) as (w' & Hr & _ & Htr & _).
  exists w', (render_events (deltaTime t) scene (_activeCameras sc)).
  repeat split; try done.
  intros c e Hoff Hin Hc.
  destruct (render_events_renderable _ _ _ _ _ Hin Hc) as [_ Hr'].
  unfold renderable in Hr'. apply andb_true_iff in Hr' as [? ?].
  destruct Hoff; congruence.
Qed.

Lemma render_pass_skips_disabled_witness :
  exists w' evs,
    _render 0 (engine_with_cameras [cam_disabled 0 3; cam 1 1; cam_inactive 2 2])
    = Ret tt w'
    /\ trace w'
       = trace (engine_with_cameras [cam_disabled 0 3; cam 1 1; cam_inactive 2 2])
         ++ evs
    /\ forall c e,
         enabled c = false \/ isActiveInHierarchy c = false ->
         e ∈ evs -> camera_of e ≠ Some c.
Proof.
  apply (render_pass_skips_disabled
           (engine_with_cameras [cam_disabled 0 3; cam 1 1; cam_inactive 2 2]) 0
           (scene_with [cam_disabled 0 3; cam 1 1; cam_inactive 2 2]) (Time_new 0));
    reflexivity.
Defined.

(** Only the enabled, active camera is heard of in such a pass. *)
Example render_skips_example :
  trace (world_of (_render 0
           (engine_with_cameras [cam_disabled 0 3; cam 1 1; cam_inactive 2 2])))
  = [HardwareRendererInit 7; CallRendererOnUpdate 0; UpdateShaderData 0;
     CallCameraOnBeginRender (cam 1 1); SceneFeature "preRender" 0 (cam 1 1);
     CameraRender (cam 1 1); SceneFeature "postRender" 0 (cam 1 1);
     CallCameraOnEndRender (cam 1 1); RestPool RenderElementPool].
Proof. reflexivity. Qed.

(** C10. A render pass over a scene with at least one camera leaves the
    scene object's camera array sorted by priority: the array stored in the
    scene after the pass is the sorted one (the same cameras, reordered), it
    stays so when the pass is over, and nothing else of the scene, of the
    other scenes or of the engine's fields is changed by the pass. *)
Theorem render_pass_sorts_in_place (w : World) (scene : nat) (sc : Scene) (t : Time) :
  _time (engine w) = Some t ->
  scenes w !! scene = Some sc ->
  _activeCameras sc ≠ [] ->
  exists w' sc',
    _render scene w = Ret tt w'
    /\ scenes w' !! scene = Some sc'
    /\ _activeCameras sc' = Array_sort compareCameras (_activeCameras sc)
    /\ StronglySorted priority_le (_activeCameras sc')
    /\ Permutation (_activeCameras sc') (_activeCameras sc)
    /\ sceneName sc' = sceneName sc
    /\ (forall other, other ≠ scene -> scenes w' !! other = scenes w !! other)
    /\ engine w' = engine w.
Proof.
  intros Ht Hsc _.
  destruct (_render_scene_after w scene sc t Ht Hsc)
    as (w' & Hr & He & _ & Hsc' & Hother).
  exists w', (Scene_set_activeCameras
                (Array_sort compareCameras (_activeCameras sc)) sc).
  repeat split; try done; simpl.
  - apply Array_sort_sorted.
  - apply Array_sort_perm.
Qed.

Lemma render_pass_sorts_in_place_witness :
  exists w' sc',
    _render 0 (engine_with_cameras [cam 0 3; cam 1 1; cam 2 2]) = Ret tt w'
    /\ scenes w' !! 0%nat = Some sc'
    /\ _activeCameras sc' = Array_sort compareCameras [cam 0 3; cam 1 1; cam 2 2]
    /\ StronglySorted priority_le (_activeCameras sc')
    /\ Permutation (_activeCameras sc') [cam 0 3; cam 1 1; cam 2 2]
    /\ sceneName sc' = "DefaultScene"
    /\ (forall other, other ≠ 0%nat ->
          scenes w' !! other
          = scenes (engine_with_cameras [cam 0 3; cam 1 1; cam 2 2]) !! other)
    /\ engine w' = engine (engine_with_cameras [cam 0 3; cam 1 1; cam 2 2]).
Proof.
  apply (render_pass_sorts_in_place
           (engine_with_cameras [cam 0 3; cam 1 1; cam 2 2]) 0
           (scene_with [cam 0 3; cam 1 1; cam 2 2]) (Time_new 0));
    [reflexivity | reflexivity | discriminate].
Defined.

(** The array [3, 1, 2] is stored as [1, 2, 3] after one frame, and still
    so after the next. *)
Example stored_order_after_update :
  let w1 := world_of (update (engine_with_cameras [cam 0 3; cam 1 1; cam 2 2])) in
  let w2 := world_of (update w1) in
  (_activeCameras <$> scenes w1 !! 0%nat) = Some [cam 1 1; cam 2 2; cam 0 3]
  /\ (_activeCameras <$> scenes w2 !! 0%nat) = Some [cam 1 1; cam 2 2; cam 0 3].
Proof. split; reflexivity. Qed.

(** ** One frame *)

(** C8. When the active scene is [null], [update()] returns after exactly
    these calls: the clock tick, the two pool resets, the pre-tick hooks,
    the deferred component-destroy sweep and the post-tick hooks.  No start,
    update, animation-update or late-update callback runs and there is no
    render pass; the clock has advanced and no scene is touched. *)
Theorem update_without_scene (w : World) (t : Time) (sm : SceneManager) :
  _time (engine w) = Some t ->
  _sceneManager (engine w) = Some sm ->
  _activeScene sm = None ->
  exists w',
    update w = Ret tt w'
    /\ trace w'
       = trace w ++ [TimeTick; ResetPool RenderElementPool;
                     ResetPool SpriteElementPool; EngineFeature "preTick" [None];
                     CallComponentDestory; EngineFeature "postTick" [None]]
    /\ _time (engine w') = Some (Time_tick (wallClock w) t)
    /\ scenes w' = scenes w.
Proof.
  intros Ht Hsm Hnone. eexists. split.
  - by apply (update_eq_no_scene w t sm).
  - done.
Qed.

Lemma update_without_scene_witness :
  exists w',
    update engine_without_scene = Ret tt w'
    /\ trace w'
       = trace engine_without_scene
         ++ [TimeTick; ResetPool RenderElementPool;
             ResetPool SpriteElementPool; EngineFeature "preTick" [None];
             CallComponentDestory; EngineFeature "postTick" [None]]
    /\ _time (engine w') = Some (Time_tick (wallClock engine_without_scene) (Time_new 0))
    /\ scenes w' = scenes engine_without_scene.
Proof.
  apply (update_without_scene engine_without_scene (Time_new 0)
           {| _activeScene := None |}); reflexivity.
Defined.

(** With a scene, the same frame also runs the lifecycle callbacks and the
    render pass, between the pre-tick hooks and the destroy sweep. *)
Example update_with_scene_example :
  trace (world_of (update (set_wallClock 16 (Engine_new 7 0))))
  = [HardwareRendererInit 7; TimeTick; ResetPool RenderElementPool;
     ResetPool SpriteElementPool; EngineFeature "preTick" [Some 0%nat];
     CallScriptOnStart; CallScriptOnUpdate 0; CallAnimationUpdate 0;
     CallScriptOnLateUpdate 0; CallRendererOnUpdate 16; UpdateShaderData 0;
     LoggerDebug "NO active camera."; CallComponentDestory;
     EngineFeature "postTick" [Some 0%nat]].
Proof. reflexivity. Qed.

(** ** [destroy] *)

Lemma destroy_destroyed (w : World) :
  _sceneManager (engine w) = None -> destroy w = Ret tt w.
Proof. intros H. unfold destroy. unfold_monad. by rewrite H. Qed.

Lemma destroy_clears_sceneManager (w w1 : World) :
  destroy w = Ret tt w1 -> _sceneManager (engine w1) = None.
Proof.
  unfold destroy, pause, cancelAnimationFrame, clearTimeout. unfold_monad.
  destruct (_sceneManager (engine w)) as [sm|] eqn:Hsm.
  - simpl. destruct (_requestId (engine w)), (_timeoutId (engine w)); simpl;
      rewrite ?Hsm; simpl;
      (destruct (_activeScene sm); simpl; [|done]);
      (destruct (_resourceManager (engine w)); simpl; [|done]);
      by intros [= <-].
  - by intros [= <-].
Qed.

(** C7. [destroy()] on an engine that a previous [destroy()] has destroyed
    returns without throwing and changes nothing: no call is made (no
    shutdown event, no shutdown hook) and every field is as it was. *)
Theorem destroy_twice (w w1 : World) :
  destroy w = Ret tt w1 -> destroy w1 = Ret tt w1.
Proof. intros H. by apply destroy_destroyed, (destroy_clears_sceneManager w). Qed.

Lemma destroy_twice_witness :
  destroy (world_of (destroy (Engine_new 7 0)))
  = Ret tt (world_of (destroy (Engine_new 7 0))).
Proof. apply (destroy_twice (Engine_new 7 0)). vm_compute. reflexivity. Defined.

(** The first [destroy()] of a running engine does its work once: the
    shutdown event and hooks, the teardown and the cleared fields. *)
Example destroy_once_example :
  let w1 := world_of (destroy (exec [OpResume; OpRefreshSignal 16] (Engine_new 7 0))) in
  drop 15 (trace w1)
  = [Trigger "shutdown"; EngineFeature "shutdown" []; SceneDestroy 0; ResourceGc;
     CallComponentDestory; RemoveAllEventListeners]
  /\ _sceneManager (engine w1) = None
  /\ _time (engine w1) = None
  /\ rafCallbacks w1 = []
  /\ trace (world_of (destroy w1)) = trace w1.
Proof. vm_compute. repeat split; reflexivity. Qed.

(** A [destroy()] that fails half-way (no active scene to destroy) has not
    destroyed the engine: the next call fires the shutdown hooks again. *)
Example destroy_without_scene_throws :
  destroy engine_without_scene
  = Throw TypeError (world_of (destroy engine_without_scene))
  /\ _sceneManager (engine (world_of (destroy engine_without_scene))) ≠ None.
Proof. vm_compute. split; [reflexivity | discriminate]. Qed.

(** ** [resume] and [pause] *)

Lemma resume_running (w : World) :
  _isPaused (engine w) = false -> resume w = Ret tt w.
Proof. intros H. unfold resume. unfold_monad. by rewrite H. Qed.

Lemma resume_paused (w : World) (t : Time) :
  _isPaused (engine w) = true ->
  _time (engine w) = Some t ->
  _animate_field (engine w) = Some CbAnimate ->
  resume w
  = Ret tt
      (set_nextHandle (S (nextHandle w))
         (set_rafCallbacks (rafCallbacks w ++ [nextHandle w])
            (set_trace (trace w ++ [TimeReset])
               (set_engine
                  (set_time (Some (Time_reset (wallClock w) t))
                     (set_isPaused false (engine w))) w)))).
Proof.
  intros Hp Ht Ha. unfold resume, Time_reset_m, requestAnimationFrame.
  unfold_monad. rewrite Hp. simpl. rewrite Ht. simpl. by rewrite Ha.
Qed.

(** Whatever happens in [resume()], the engine is not paused afterwards. *)
Lemma resume_not_paused (w : World) :
  _isPaused (engine (world_of (resume w))) = false.
Proof.
  unfold resume, Time_reset_m, requestAnimationFrame. unfold_monad.
  destruct (_isPaused (engine w)) eqn:Hp; simpl; [|done].
  destruct (_time (engine w)); simpl; [|done].
  by destruct (_animate_field (engine w)).
Qed.

Lemma resume_resume (w : World) :
  world_of (resume (world_of (resume w))) = world_of (resume w).
Proof. by rewrite (resume_running _ (resume_not_paused w)). Qed.

(** X26. Two calls of [resume()] in a row on a paused engine do what one
    call does: the second call returns at once and changes nothing.  The
    engine is running, the two calls together have added one
    animation-frame request to whatever was queued and no timer, and the
    clock has been reset once. *)
Theorem resume_idempotent (w : World) (t : Time) :
  _isPaused (engine w) = true ->
  _time (engine w) = Some t ->
  _animate_field (engine w) = Some CbAnimate ->
  let w1 := world_of (resume w) in
  let w2 := world_of (resume w1) in
  resume w1 = Ret tt w1
  /\ w2 = w1
  /\ _isPaused (engine w2) = false
  /\ rafCallbacks w2 = rafCallbacks w ++ [nextHandle w]
  /\ timers w2 = timers w
  /\ trace w2 = trace w ++ [TimeReset]
  /\ _time (engine w2) = Some (Time_reset (wallClock w) t).
Proof.
  intros Hp Ht Ha w1 w2.
  assert (resume w1 = Ret tt w1) as H1 by apply resume_running, resume_not_paused.
  assert (w2 = w1) as H2 by (unfold w2; by rewrite H1).
  split; [done|]. split; [done|]. rewrite H2. unfold w1.
  rewrite (resume_paused w t Hp Ht Ha). done.
Qed.

Lemma resume_idempotent_witness :
  let w := exec [OpResume; OpPause] (Engine_new 7 0) in
  let w1 := world_of (resume w) in
  let w2 := world_of (resume w1) in
  resume w1 = Ret tt w1
  /\ w2 = w1
  /\ _isPaused (engine w2) = false
  /\ rafCallbacks w2 = rafCallbacks w ++ [nextHandle w]
  /\ timers w2 = timers w
  /\ trace w2 = trace w ++ [TimeReset]
  /\ _time (engine w2) = Some (Time_reset (wallClock w) (Time_new 0)).
Proof.
  apply (resume_idempotent (exec [OpResume; OpPause] (Engine_new 7 0)) (Time_new 0));
    reflexivity.
Defined.

(** On a fresh engine that is one pending wake-up in all. *)
Example resume_twice_one_wakeup :
  let w2 := exec [OpResume; OpResume] (Engine_new 7 0) in
  rafCallbacks w2 = [1%nat] /\ timers w2 = []
  /\ trace w2 = [HardwareRendererInit 7; TimeReset].
Proof. vm_compute. repeat split; reflexivity. Qed.

(** The handle of the request made by [resume()] is not kept, so a
    [pause()] that follows at once has nothing to cancel it with.
    [_requestId] can only hold a handle the browser has already given out. *)
Lemma resume_pause_keeps_wakeup (w : World) (t : Time) :
  _isPaused (engine w) = true ->
  _time (engine w) = Some t ->
  _animate_field (engine w) = Some CbAnimate ->
  _requestId (engine w) ≠ Some (nextHandle w) ->
  let w' := world_of (pause (world_of (resume w))) in
  _isPaused (engine w') = true /\ nextHandle w ∈ rafCallbacks w'.
Proof.
  intros Hp Ht Ha Hid w'. unfold w'.
  rewrite (resume_paused w t Hp Ht Ha). simpl.
  unfold pause, cancelAnimationFrame, clearTimeout. unfold_monad. simpl.
  destruct (_requestId (engine w)) as [h|] eqn:Hr,
           (_timeoutId (engine w)) as [h'|]; simpl; split; try done.
  all: try (apply list_elem_of_filter; split; [congruence|]).
  all: apply elem_of_app; right; left.
Qed.

(** The browser has nothing to call when nothing is queued. *)
Lemma step_signal_idle (w : World) (op : Op) :
  rafCallbacks w = [] -> timers w = [] ->
  match op with OpResume | OpPause => False | _ => True end ->
  let w' := step w op in
  rafCallbacks w' = [] /\ timers w' = [] /\ trace w' = trace w.
Proof.
  intros Hr Ht Hop. destruct op as [| |now|h now]; try done; simpl.
  - unfold refreshSignal. simpl. rewrite Hr. done.
  - unfold timerFires. rewrite Ht. done.
Qed.

Lemma filter_none {A} (P : A -> Prop) `{!forall x, Decision (P x)} (l : list A) :
  (forall x, x ∈ l -> ~ P x) -> filter P l = [].
Proof.
  induction l as [|x l IH]; intros Hl; [done|].
  rewrite filter_cons_False by (apply Hl; left).
  apply IH. intros y Hy. apply Hl. by right.
Qed.

Lemma pause_trace (w : World) : trace (world_of (pause w)) = trace w.
Proof.
  unfold pause, cancelAnimationFrame, clearTimeout. unfold_monad. simpl.
  by destruct (_requestId (engine w)), (_timeoutId (engine w)).
Qed.

Lemma pause_rafCallbacks (w : World) :
  rafCallbacks (world_of (pause w))
  = match _requestId (engine w) with
    | Some h => filter (fun h' => h' ≠ h) (rafCallbacks w)
    | None => rafCallbacks w
    end.
Proof.
  unfold pause, cancelAnimationFrame, clearTimeout. unfold_monad. simpl.
  by destruct (_requestId (engine w)), (_timeoutId (engine w)).
Qed.

Lemma pause_timers (w : World) :
  timers (world_of (pause w))
  = match _timeoutId (engine w) with
    | Some h => filter (fun t => t.1.1 ≠ h) (timers w)
    | None => timers w
    end.
Proof.
  unfold pause, cancelAnimationFrame, clearTimeout. unfold_monad. simpl.
  by destruct (_requestId (engine w)), (_timeoutId (engine w)).
Qed.

(** A [pause()] whose [_requestId] and [_timeoutId] name every queued
    wake-up cancels them all, and then no signal, however late, runs a
    frame. *)
Lemma pause_cancels_known_wakeups (w : World) (signals : list Op) :
  (forall h, h ∈ rafCallbacks w -> _requestId (engine w) = Some h) ->
  (forall tm, tm ∈ timers w -> _timeoutId (engine w) = Some tm.1.1) ->
  Forall (fun op => match op with OpResume | OpPause => False | _ => True end)
    signals ->
  frames (exec signals (world_of (pause w))) = frames (world_of (pause w))
  /\ frames (world_of (pause w)) = frames w.
Proof.
  intros Hraf Htm Hsig.
  assert (rafCallbacks (world_of (pause w)) = []) as Hr.
  { rewrite pause_rafCallbacks.
    destruct (_requestId (engine w)) as [h|] eqn:Hrid.
    - apply filter_none. intros x Hx Hne. apply Hraf in Hx. congruence.
    - destruct (rafCallbacks w) as [|x ?]; [done|].
      by specialize (Hraf x ltac:(left)). }
  assert (timers (world_of (pause w)) = []) as Ht.
  { rewrite pause_timers.
    destruct (_timeoutId (engine w)) as [h|] eqn:Htid.
    - apply filter_none. intros x Hx Hne. apply Htm in Hx. congruence.
    - destruct (timers w) as [|x ?]; [done|].
      by specialize (Htm x ltac:(left)). }
  split; [|unfold frames; by rewrite pause_trace].
  revert Hr Ht. generalize (world_of (pause w)) as v.
  induction Hsig as [|op ops Hop _ IH]; intros v Hr Ht; [done|].
  change (exec (op :: ops) v) with (exec ops (step v op)).
  destruct (step_signal_idle v op Hr Ht Hop) as (Hr' & Ht' & Htr').
  rewrite IH by done. unfold frames. by rewrite Htr'.
Qed.

(** C3. [pause()] is meant to stop the loop until the next [resume()].
    It does not when it follows [resume()] directly: the animation-frame
    request made by [resume()] is still queued, the paused engine runs a
    frame at the next refresh signal, and queues the one after. *)
Theorem pause_after_resume_keeps_running :
  let w := exec [OpResume; OpPause] (Engine_new 7 0) in
  _isPaused (engine w) = true
  /\ rafCallbacks w = [1%nat]
  /\ frames w = 0%nat
  /\ frames (exec [OpRefreshSignal 16] w) = 1%nat
  /\ frames (exec [OpRefreshSignal 16; OpRefreshSignal 33] w) = 2%nat
  /\ _isPaused (engine (exec [OpRefreshSignal 16; OpRefreshSignal 33] w)) = true.
Proof. vm_compute. repeat split; reflexivity. Qed.

(** Once the loop has run a signal, [_requestId] names the queued request
    and [pause()] stops the loop. *)
Example pause_after_frame_stops :
  let w := exec [OpResume; OpRefreshSignal 16; OpPause] (Engine_new 7 0) in
  rafCallbacks w = []
  /\ frames w = 1%nat
  /\ frames (exec [OpRefreshSignal 33; OpRefreshSignal 50] w) = 1%nat.
Proof. vm_compute. repeat split; reflexivity. Qed.

(** ** The time step handed to the callbacks *)

(** With an active scene, [update()] hands the script, animation and
    late-update callbacks the [deltaTime] the clock held before this frame's
    tick, and the render pass the one measured by this frame's tick. *)
Lemma update_deltaTime (w : World) (t : Time) (sm : SceneManager) scene sc :
  _time (engine w) = Some t ->
  _sceneManager (engine w) = Some sm ->
  _activeScene sm = Some scene ->
  scenes w !! scene = Some sc ->
  exists w' evs,
    update w = Ret tt w'
    /\ (deltaTime <$> _time (engine w')) = Some (wallClock w - lastTickTime t)
    /\ trace w'
       = trace w
         ++ [TimeTick; ResetPool RenderElementPool; ResetPool SpriteElementPool;
             EngineFeature "preTick" [Some scene];
             CallScriptOnStart; CallScriptOnUpdate (deltaTime t);
             CallAnimationUpdate (deltaTime t);
             CallScriptOnLateUpdate (deltaTime t);
             CallRendererOnUpdate (wallClock w - lastTickTime t)]
         ++ evs.
Proof.
  intros Ht Hsm Hact Hsc. eexists _, _. split.
  - by apply (update_eq_scene w t sm scene sc).
  - split; [done|]. simpl. unfold frame_events, render_events. simpl.
    do 10 f_equal.
Qed.

(** C2. [update()] reads [deltaTime] before it advances the clock.  In the
    second frame of a run with refresh signals at times 10 and 30, the
    frame's own elapsed time is 20, which is what the clock holds after the
    tick and what the render pass passes on; the script, animation and
    late-update callbacks are given 10, the elapsed time of the frame
    before. *)
Theorem update_passes_previous_deltaTime :
  let w2 := exec [OpResume; OpRefreshSignal 10; OpRefreshSignal 30] (Engine_new 7 0) in
  (deltaTime <$> _time (engine w2)) = Some 20
  /\ drop 15 (trace w2)
     = [TimeTick; ResetPool RenderElementPool; ResetPool SpriteElementPool;
        EngineFeature "preTick" [Some 0%nat];
        CallScriptOnStart; CallScriptOnUpdate 10; CallAnimationUpdate 10;
        CallScriptOnLateUpdate 10;
        CallRendererOnUpdate 20; UpdateShaderData 0;
        LoggerDebug "NO active camera.";
        CallComponentDestory; EngineFeature "postTick" [Some 0%nat]].
Proof. vm_compute. split; reflexivity. Qed.

(** ** The shader-program pool registry *)

Lemma Array_get_ge {A} (a : list (option A)) (i : nat) :
  (length a <= i)%nat -> Array_get a i = None.
Proof. intros H. unfold Array_get. by rewrite lookup_ge_None_2. Qed.

Lemma Array_get_lt {A} (a : list (option A)) (i : nat) (v : A) :
  Array_get a i = Some v -> (i < length a)%nat.
Proof.
  unfold Array_get. intros H. apply lookup_lt_is_Some.
  destruct (a !! i); [by eexists|done].
Qed.

Lemma Array_set_length {A} (a : list (option A)) (i : nat) (v : A) :
  length (Array_set a i v) = (length a `max` (i + 1))%nat.
Proof.
  unfold Array_set. case_decide.
  - rewrite length_insert. lia.
  - rewrite !length_app, length_replicate. simpl. lia.
Qed.

Lemma Array_get_set {A} (a : list (option A)) (i : nat) (v : A) :
  Array_get (Array_set a i v) i = Some v.
Proof.
  unfold Array_get, Array_set. case_decide.
  - by rewrite list_lookup_insert_eq.
  - rewrite lookup_app_r by lia.
    rewrite lookup_app_r by (rewrite length_replicate; lia).
    rewrite length_replicate.
    by replace (i - length a - (i - length a))%nat with 0%nat by lia.
Qed.

(** What [_getShaderProgramPool] does to the array when the slot is empty. *)
Lemma _getShaderProgramPool_empty (w : World) (index : nat) :
  Array_get (_shaderProgramPools (engine w)) index = None ->
  exists w',
    _getShaderProgramPool index w = Ret (mkPool (nextPool w)) w'
    /\ _shaderProgramPools (engine w')
       = Array_set
           (if decide (index + 1 < length (_shaderProgramPools (engine w)))%nat
            then Array_truncate (index + 1) (_shaderProgramPools (engine w))
            else _shaderProgramPools (engine w))
           index (mkPool (nextPool w))
    /\ nextPool w' = S (nextPool w).
Proof.
  intros H. unfold _getShaderProgramPool, new_ShaderProgramPool. unfold_monad.
  rewrite H. case_decide; simpl; eexists; done.
Qed.

Lemma _getShaderProgramPool_present (w : World) (index : nat) pool :
  Array_get (_shaderProgramPools (engine w)) index = Some pool ->
  _getShaderProgramPool index w = Ret pool w.
Proof.
  intros H. unfold _getShaderProgramPool. unfold_monad. by rewrite H.
Qed.

(** Asking twice in a row returns the same pool. *)
Lemma _getShaderProgramPool_twice (w : World) (index : nat) :
  exists pool w',
    _getShaderProgramPool index w = Ret pool w'
    /\ _getShaderProgramPool index w' = Ret pool w'.
Proof.
  destruct (Array_get (_shaderProgramPools (engine w)) index) as [pool|] eqn:H.
  - exists pool, w. split; by apply _getShaderProgramPool_present.
  - destruct (_getShaderProgramPool_empty w index H) as (w' & Hget & Hpools & _).
    exists (mkPool (nextPool w)), w'. split; [done|].
    apply _getShaderProgramPool_present. rewrite Hpools. apply Array_get_set.
Qed.

(** A first access to a lower index cuts the array down to that index: the
    pool at any higher index is lost. *)
Lemma _getShaderProgramPool_lower_drops_higher (w : World) (i j : nat) :
  (j < i)%nat ->
  Array_get (_shaderProgramPools (engine w)) j = None ->
  exists pool w1 w2 pool',
    _getShaderProgramPool i w = Ret pool w1
    /\ Array_get (_shaderProgramPools (engine w1)) i = Some pool
    /\ _getShaderProgramPool j w1 = Ret pool' w2
    /\ Array_get (_shaderProgramPools (engine w2)) i = None.
Proof.
  intros Hji Hj.
  assert (exists pool w1,
            _getShaderProgramPool i w = Ret pool w1
            /\ Array_get (_shaderProgramPools (engine w1)) i = Some pool
            /\ Array_get (_shaderProgramPools (engine w1)) j = None)
    as (pool & w1 & Hget1 & Hi1 & Hj1).
  { destruct (Array_get (_shaderProgramPools (engine w)) i) as [pool|] eqn:Hi.
    - exists pool, w. by rewrite (_getShaderProgramPool_present w i pool Hi).
    - destruct (_getShaderProgramPool_empty w i Hi) as (w1 & Hget & Hpools & _).
      exists (mkPool (nextPool w)), w1. split; [done|]. rewrite Hpools.
      split; [apply Array_get_set|].
      revert Hj. unfold Array_get, Array_set, Array_truncate.
      generalize (_shaderProgramPools (engine w)) as a. intros a Hj.
      repeat case_decide; rewrite ?length_take in *; try lia.
      all: try (rewrite list_lookup_insert_ne by lia).
      all: try (rewrite lookup_take_lt by lia).
      all: try done.
      all: destruct (decide (j < length a)%nat);
        [by rewrite lookup_app_l by lia|].
      all: rewrite lookup_app_r by lia.
      all: rewrite lookup_app_l by (rewrite length_replicate; lia).
      all: by rewrite lookup_replicate_2 by lia. }
  destruct (_getShaderProgramPool_empty w1 j Hj1) as (w2 & Hget2 & Hpools2 & _).
  exists pool, w1, w2, (mkPool (nextPool w1)). repeat split; try done.
  apply Array_get_ge. rewrite Hpools2, Array_set_length.
  apply Array_get_lt in Hi1.
  rewrite decide_True by lia. unfold Array_truncate. rewrite length_take. lia.
Qed.

(** C1. The registry is meant to keep every pool it has handed out.  It
    does not: after [get(5)], the first [get(2)] shortens the array to
    length 3, the slot at index 5 is gone, and the next [get(5)] makes a new
    pool instead of returning the first one. *)
Theorem getShaderProgramPool_5_then_2_drops_5 :
  exists p5 p2 p5' w1 w2 w3,
    _getShaderProgramPool 5 (Engine_new 7 0) = Ret p5 w1
    /\ _getShaderProgramPool 2 w1 = Ret p2 w2
    /\ _getShaderProgramPool 5 w2 = Ret p5' w3
    /\ Array_get (_shaderProgramPools (engine w1)) 5 = Some p5
    /\ _shaderProgramPools (engine w2) = [None; None; Some p2]
    /\ Array_get (_shaderProgramPools (engine w2)) 5 = None
    /\ p5' ≠ p5.
Proof.
  eexists _, _, _, _, _, _.
  split; [vm_compute; reflexivity|].
  split; [vm_compute; reflexivity|].
  split; [vm_compute; reflexivity|].
  vm_compute. repeat split; try reflexivity. discriminate.
Qed.

(** ** Frame pacing on the refresh signal *)

Lemma alive_ext (w w' : World) :
  _time (engine w') = _time (engine w) ->
  _sceneManager (engine w') = _sceneManager (engine w) ->
  scenes w' = scenes w ->
  alive w' = alive w.
Proof. unfold alive. by intros -> -> ->. Qed.

Lemma update_alive (w : World) :
  alive w = true ->
  exists t active,
    update w = Ret tt (frame_world t active w)
    /\ forall scene sc, active = Some (scene, sc) -> scenes w !! scene = Some sc.
Proof.
  unfold alive. intros H.
  destruct (_time (engine w)) as [t|] eqn:Ht; [|done].
  destruct (_sceneManager (engine w)) as [sm|] eqn:Hsm; [|done].
  destruct (_activeScene sm) as [scene|] eqn:Hact.
  - destruct (scenes w !! scene) as [sc|] eqn:Hsc; [|done].
    exists t, (Some (scene, sc)). split.
    + by apply (update_eq_scene w t sm).
    + by intros ? ? [= <- <-].
  - exists t, None. split; [|done]. by apply (update_eq_no_scene w t sm).
Qed.

Lemma frame_world_alive (w : World) (t : Time) active :
  alive w = true ->
  (forall scene sc, active = Some (scene, sc) -> scenes w !! scene = Some sc) ->
  alive (frame_world t active w) = true.
Proof.
  unfold alive, frame_world. simpl. intros H Hact.
  destruct (_time (engine w)); [|done].
  destruct (_sceneManager (engine w)) as [sm|]; [|done].
  destruct (_activeScene sm) as [scene|]; [|done].
  destruct active as [[scene' sc']|]; [|done].
  unfold render_scenes. destruct (_activeCameras sc'); [done|].
  destruct (decide (scene' = scene)) as [->|Hne].
  - by rewrite lookup_insert_eq.
  - by rewrite lookup_insert_ne.
Qed.

Lemma ticks_camera_events scene (cs : list Camera) :
  List.filter is_tick (flat_map (camera_events scene) cs) = [].
Proof.
  induction cs as [|c cs IH]; simpl; [done|].
  rewrite List.filter_app, IH, app_nil_r. unfold camera_events.
  by destruct (enabled c && isActiveInHierarchy c).
Qed.

(** One [update()] is one clock tick. *)
Lemma ticks_frame_events (t : Time) (now : Z) active :
  List.filter is_tick (frame_events t now active) = [TimeTick].
Proof.
  unfold frame_events. destruct active as [[scene sc]|]; [|done].
  simpl. unfold render_events. simpl.
  destruct (_activeCameras sc); [done|].
  by rewrite !List.filter_app, ticks_camera_events.
Qed.

Lemma frames_frame_world (w : World) (t : Time) active :
  frames (frame_world t active w) = S (frames w).
Proof.
  unfold frames, frame_world. simpl.
  rewrite List.filter_app, ticks_frame_events, length_app. simpl. lia.
Qed.

(** The handler in refresh-driven mode: it queues the next request, counts
    the signal, and runs a frame when the count is a multiple. *)
Lemma _animate_vsync (w : World) :
  _vSyncCount (engine w) ≠ 0 ->
  _animate_field (engine w) = Some CbAnimate ->
  _animate w
  = if decide (Z.rem (_vSyncCounter (engine w)) (_vSyncCount (engine w)) = 0)
    then (update ;; assign (set_vSyncCounter 1)) (animate_armed w)
    else Ret tt (animate_armed w).
Proof.
  intros Hn Ha. unfold _animate, requestAnimationFrame. unfold_monad.
  rewrite decide_True by done. rewrite Ha. simpl.
  by destruct (decide (Z.rem (_vSyncCounter (engine w)) (_vSyncCount (engine w)) = 0)).
Qed.

(** A refresh signal with one request queued runs the handler once. *)
Lemma refreshSignal_single (w : World) (now : Z) (h : nat) :
  rafCallbacks w = [h] ->
  world_of (refreshSignal now w)
  = world_of (_animate (set_rafCallbacks [] (set_wallClock now w))).
Proof.
  intros Hr. unfold refreshSignal. simpl (rafCallbacks _). rewrite Hr.
  cbn [for_each]. unfold run_frame_callback, invoke. unfold_monad.
  simpl (rafCallbacks _). rewrite Hr.
  rewrite decide_True by (left).
  rewrite filter_cons_False by (by intros ?). done.
Qed.

(** One refresh signal: a frame exactly when the counter is a multiple of
    [n]; the counter then starts again at 1, and otherwise goes up by one. *)
Lemma refreshSignal_pacing (n c : Z) (w : World) (now : Z) :
  1 <= n -> 1 <= c ->
  pacing n c w ->
  let w' := step w (OpRefreshSignal now) in
  if decide (c mod n = 0)
  then pacing n 1 w' /\ frames w' = S (frames w)
  else pacing n (c + 1) w' /\ frames w' = frames w.
Proof.
  intros Hn Hc (Halive & Ha & Hv & Hcnt & h & Hr). simpl.
  rewrite (refreshSignal_single w now h Hr).
  set (w0 := set_rafCallbacks [] (set_wallClock now w)).
  rewrite _animate_vsync by (simpl; [lia || done]).
  simpl (_vSyncCounter _). simpl (_vSyncCount _). rewrite Hv, Hcnt.
  rewrite Z.rem_mod_nonneg by lia.
  destruct (decide (c mod n = 0)) as [Heq|Hne].
  - assert (alive (animate_armed w0) = true) as Halive0.
    { by rewrite (alive_ext w). }
    destruct (update_alive _ Halive0) as (t & active & Hupd & Hact).
    rewrite (bind_Ret _ _ _ _ _ Hupd). unfold assign. simpl world_of.
    split.
    + split; [|by eauto 10].
      rewrite <- (frame_world_alive _ t active Halive0 Hact).
      by apply alive_ext.
    + change (frames (frame_world t active (animate_armed w0)) = S (frames w)).
      by rewrite frames_frame_world.
  - simpl world_of. split; [|done].
    split; [by rewrite (alive_ext w)|]. simpl. rewrite Hcnt. by eauto 10.
Qed.

Lemma div_succ (n k : Z) :
  1 <= n -> 0 <= k ->
  (k + 1) / n = k / n + (if decide ((k + 1) mod n = 0) then 1 else 0).
Proof.
  intros Hn Hk.
  pose proof (Z.mod_pos_bound k n ltac:(lia)) as Hr.
  pose proof (Z.div_mod k n ltac:(lia)) as Hdm.
  destruct (decide (k mod n + 1 = n)) as [Hc|Hc].
  - rewrite decide_True.
    + symmetry. apply (Z.div_unique _ _ _ 0); lia.
    + symmetry. apply (Z.mod_unique _ _ (k / n + 1)); lia.
  - rewrite decide_False.
    + symmetry. apply (Z.div_unique _ _ _ (k mod n + 1)); lia.
    + rewrite <- (Z.mod_unique (k + 1) n (k / n) (k mod n + 1)); lia.
Qed.

(** A loop whose counter stands at [c] runs a frame on the signals that
    bring the count to a multiple of [n]: after [m] signals the counter is
    congruent to [c + m] and [(c - 1 + m) / n - (c - 1) / n] frames have
    run. *)
Lemma pacing_run (n c : Z) (signals : list Z) (w : World) :
  1 <= n -> 1 <= c ->
  pacing n c w ->
  let w' := exec (OpRefreshSignal <$> signals) w in
  let m := Z.of_nat (length signals) in
  (exists c', 1 <= c' /\ c' mod n = (c + m) mod n /\ pacing n c' w')
  /\ Z.of_nat (frames w')
     = Z.of_nat (frames w) + (c - 1 + m) / n - (c - 1) / n.
Proof.
  intros Hn Hc Hp. cbv zeta.
  induction signals as [|now signals IH] using rev_ind.
  { simpl. rewrite !Z.add_0_r. split; [by eauto|lia]. }
  destruct IH as [(c' & Hc' & Hmod & Hp') Hf].
  rewrite fmap_app, length_app, Nat2Z.inj_add. simpl length. simpl fmap.
  unfold exec in *. rewrite foldl_app. simpl foldl.
  set (w' := foldl step w (OpRefreshSignal <$> signals)) in *.
  set (m := Z.of_nat (length signals)) in *.
  pose proof (refreshSignal_pacing n c' w' now Hn Hc' Hp') as Hstep.
  cbv zeta in Hstep.
  replace (c - 1 + (m + Z.of_nat 1)) with ((c - 1 + m) + 1) by lia.
  rewrite (div_succ n (c - 1 + m)) by lia.
  replace (c - 1 + m + 1) with (c + m) by lia.
  replace (c + (m + Z.of_nat 1)) with ((c + m) + 1) by lia.
  rewrite <- (Z.add_mod_idemp_l (c + m)) by lia. rewrite <- Hmod.
  change (step w' (OpRefreshSignal now))
    with (world_of (refreshSignal now w')) in Hstep.
  destruct (decide (c' mod n = 0)) as [Hz|Hnz]; destruct Hstep as [Hp'' Hf''].
  - split; [|lia]. exists 1. rewrite Hz. by eauto.
  - split; [|lia]. exists (c' + 1). rewrite Z.add_mod_idemp_l by lia.
    split; [lia|done].
Qed.

(** One loop, that is one queued request, with the counter at its initial
    value 1 and [vSyncCount = n >= 1], executes a frame on every [n]-th
    signal and on no other: after any number of signals, the next one (the
    [k]-th) runs [update()] once when [k] is a multiple of [n] and not at
    all otherwise, so that [m] signals have run [m / n] frames. *)
Theorem vsync_frame_every_nth_signal (w : World) (n : Z) (h : nat) :
  1 <= n ->
  alive w = true ->
  _animate_field (engine w) = Some CbAnimate ->
  _vSyncCount (engine w) = n ->
  _vSyncCounter (engine w) = 1 ->
  rafCallbacks w = [h] ->
  forall (signals : list Z) (now : Z),
    let w' := exec (OpRefreshSignal <$> signals) w in
    let k := Z.of_nat (length signals) + 1 in
    frames (step w' (OpRefreshSignal now))
    = (frames w' + (if decide (k mod n = 0)%Z then 1 else 0))%nat
    /\ Z.of_nat (frames w') = Z.of_nat (frames w) + Z.of_nat (length signals) / n.
Proof.
  intros Hn Halive Ha Hv Hc Hr signals now w' k.
  assert (pacing n 1 w) as Hp by (unfold pacing; by eauto 10).
  destruct (pacing_run n 1 signals w Hn ltac:(lia) Hp)
    as [(c' & Hc' & Hmod & Hp') Hf].
  fold w' in Hp', Hf. cbv zeta in Hf.
  replace (1 - 1 + Z.of_nat (length signals))
    with (Z.of_nat (length signals)) in Hf by lia.
  rewrite Z.div_0_l in Hf by lia.
  split; [|lia].
  pose proof (refreshSignal_pacing n c' w' now Hn Hc' Hp') as Hstep.
  cbv zeta in Hstep. unfold k.
  replace (Z.of_nat (length signals) + 1) with (1 + Z.of_nat (length signals))
    by lia.
  rewrite <- Hmod.
  destruct (decide (c' mod n = 0)); destruct Hstep as [_ ->]; lia.
Qed.

(** X21. The same from any phase: a loop found with its counter at [c] (as
    after a change of [vSyncCount]) runs a frame on the signals that bring
    the count to a multiple of [n], one in every [n]. *)
Lemma vsync_frame_period (w : World) (n c : Z) (h : nat) :
  1 <= n -> 1 <= c ->
  alive w = true ->
  _animate_field (engine w) = Some CbAnimate ->
  _vSyncCount (engine w) = n ->
  _vSyncCounter (engine w) = c ->
  rafCallbacks w = [h] ->
  forall (signals : list Z) (now : Z),
    let w' := exec (OpRefreshSignal <$> signals) w in
    let m := Z.of_nat (length signals) in
    frames (step w' (OpRefreshSignal now))
    = (frames w' + (if decide ((c + m) mod n = 0)%Z then 1 else 0))%nat
    /\ Z.of_nat (frames w')
       = Z.of_nat (frames w) + (c - 1 + m) / n - (c - 1) / n.
Proof.
  intros Hn Hc1 Halive Ha Hv Hc Hr signals now w' m.
  assert (pacing n c w) as Hp by (unfold pacing; by eauto 10).
  destruct (pacing_run n c signals w Hn Hc1 Hp)
    as [(c' & Hc' & Hmod & Hp') Hf].
  fold w' in Hp', Hf. cbv zeta in Hf. fold m in Hf, Hmod.
  split; [|done].
  pose proof (refreshSignal_pacing n c' w' now Hn Hc' Hp') as Hstep.
  cbv zeta in Hstep. rewrite <- Hmod.
  destruct (decide (c' mod n = 0)); destruct Hstep as [_ ->]; lia.
Qed.

Lemma vsync_frame_every_nth_signal_witness :
  let w' := exec (OpRefreshSignal <$> [16; 33]) engine_vsync3 in
  let k := Z.of_nat (length [16; 33]) + 1 in
  frames (step w' (OpRefreshSignal 50))
  = (frames w' + (if decide (k mod 3 = 0)%Z then 1 else 0))%nat
  /\ Z.of_nat (frames w')
     = Z.of_nat (frames engine_vsync3) + Z.of_nat (length [16; 33]) / 3.
Proof.
  apply (vsync_frame_every_nth_signal engine_vsync3 3 1
           ltac:(lia) eq_refl eq_refl eq_refl eq_refl eq_refl [16; 33] 50).
Defined.

(** Seven signals at [vSyncCount = 3]: frames on the third and the sixth. *)
Example vsync3_seven_signals :
  (fun signals => frames (exec (OpRefreshSignal <$> signals) engine_vsync3))
    <$> [[]; [16]; [16; 33]; [16; 33; 50]; [16; 33; 50; 66];
         [16; 33; 50; 66; 83]; [16; 33; 50; 66; 83; 100];
         [16; 33; 50; 66; 83; 100; 116]]
  = [0; 0; 0; 1; 1; 1; 2; 2]%nat.
Proof. vm_compute. reflexivity. Qed.

(** * Further properties of the engine *)

(** ** The registry beyond the first access *)

Lemma Array_get_set_ne {A} (a : list (option A)) (i k : nat) (v : A) :
  k ≠ i -> Array_get (Array_set a i v) k = Array_get a k.
Proof.
  intros Hne. unfold Array_get, Array_set. case_decide.
  - by rewrite list_lookup_insert_ne.
  - destruct (decide (k < length a)%nat).
    + by rewrite lookup_app_l.
    + rewrite (lookup_ge_None_2 a k) by lia.
      rewrite lookup_app_r by lia.
      destruct (decide (k - length a < i - length a)%nat).
      * rewrite lookup_app_l by (rewrite length_replicate; lia).
        by rewrite lookup_replicate_2.
      * rewrite lookup_app_r by (rewrite length_replicate; lia).
        rewrite length_replicate.
        by rewrite lookup_ge_None_2 by (simpl; lia).
Qed.

Lemma Array_get_truncate {A} (a : list (option A)) (n k : nat) :
  Array_get (Array_truncate n a) k
  = if decide (k < n)%nat then Array_get a k else None.
Proof.
  unfold Array_get, Array_truncate. case_decide.
  - by rewrite lookup_take_lt.
  - by rewrite lookup_take_ge by lia.
Qed.

(** The slots after an access that found its slot empty. *)
Lemma _getShaderProgramPool_empty_slots (w w' : World) (index k : nat) pool :
  Array_get (_shaderProgramPools (engine w)) index = None ->
  _getShaderProgramPool index w = Ret pool w' ->
  Array_get (_shaderProgramPools (engine w')) k
  = if decide (k = index) then Some (mkPool (nextPool w))
    else if decide (k < index)%nat
         then Array_get (_shaderProgramPools (engine w)) k
         else None.
Proof.
  intros Hempty Hget.
  destruct (_getShaderProgramPool_empty w index Hempty) as (w1 & Hget1 & Hpools & _).
  rewrite Hget in Hget1. injection Hget1 as -> <-. rewrite Hpools.
  destruct (decide (k = index)) as [->|Hne]; [apply Array_get_set|].
  rewrite Array_get_set_ne by done.
  destruct (decide (index + 1 < length (_shaderProgramPools (engine w)))%nat).
  - rewrite Array_get_truncate. repeat case_decide; try done; lia.
  - case_decide; [done|]. apply Array_get_ge. lia.
Qed.

(** X1. Two accesses in a row with the same shader return the same pool
    object, whether or not the first one had to create it. *)
Theorem getShaderProgramPool_same_pool (w : World) (index : nat) :
  exists pool w',
    _getShaderProgramPool index w = Ret pool w'
    /\ _getShaderProgramPool index w' = Ret pool w'
    /\ Array_get (_shaderProgramPools (engine w')) index = Some pool.
Proof.
  destruct (Array_get (_shaderProgramPools (engine w)) index) as [pool|] eqn:H.
  - exists pool, w. repeat split; try done; by apply _getShaderProgramPool_present.
  - destruct (_getShaderProgramPool_empty w index H) as (w' & Hget & Hpools & _).
    assert (Array_get (_shaderProgramPools (engine w')) index
            = Some (mkPool (nextPool w))) as Hslot.
    { rewrite Hpools. apply Array_get_set. }
    exists (mkPool (nextPool w)), w'. repeat split; try done.
    by apply _getShaderProgramPool_present.
Qed.

(** X2. An access never touches the slots below the index it asks for:
    whatever [_getShaderProgramPool(index)] does to the array, every pool
    stored at a lower index is still there afterwards. *)
Theorem getShaderProgramPool_keeps_lower (w : World) (index k : nat) :
  (k < index)%nat ->
  Array_get (_shaderProgramPools (engine (world_of (_getShaderProgramPool index w)))) k
  = Array_get (_shaderProgramPools (engine w)) k.
Proof.
  intros Hk.
  destruct (Array_get (_shaderProgramPools (engine w)) index) as [pool|] eqn:H.
  - by rewrite (_getShaderProgramPool_present w index pool H).
  - destruct (_getShaderProgramPool_empty w index H) as (w' & Hget & _).
    rewrite Hget. simpl world_of.
    rewrite (_getShaderProgramPool_empty_slots w w' index k _ H Hget).
    rewrite decide_False by lia. by rewrite decide_True.
Qed.

Lemma getShaderProgramPool_keeps_lower_witness :
  Array_get (_shaderProgramPools (engine (world_of (_getShaderProgramPool 5
     (engine_with_pools [None; None; Some (mkPool 0)] 1))))) 2
  = Array_get (_shaderProgramPools
                 (engine (engine_with_pools [None; None; Some (mkPool 0)] 1))) 2.
Proof.
  apply (getShaderProgramPool_keeps_lower
           (engine_with_pools [None; None; Some (mkPool 0)] 1) 5 2). lia.
Defined.

(** X3. The registry never hands out one pool for two shaders: if every
    pool in the array is one made earlier and no pool sits in two slots,
    the same holds after an access, and the pool returned is the one now
    stored at the index asked for. *)
Theorem getShaderProgramPool_registry_wf (w w' : World) (index : nat) pool :
  registry_wf w ->
  _getShaderProgramPool index w = Ret pool w' ->
  registry_wf w'
  /\ Array_get (_shaderProgramPools (engine w')) index = Some pool.
Proof.
  intros [Hfresh Hinj] Hget.
  destruct (Array_get (_shaderProgramPools (engine w)) index) as [p0|] eqn:H.
  - rewrite (_getShaderProgramPool_present w index p0 H) in Hget.
    injection Hget as <- <-. by repeat split.
  - pose proof (fun k => _getShaderProgramPool_empty_slots w w' index k pool H Hget)
      as Hslots.
    destruct (_getShaderProgramPool_empty w index H) as (w1 & Hget1 & _ & Hnext).
    rewrite Hget in Hget1. injection Hget1 as -> <-.
    assert (forall k p, k ≠ index ->
              Array_get (_shaderProgramPools (engine w')) k = Some p ->
              Array_get (_shaderProgramPools (engine w)) k = Some p) as Hold.
    { intros k p Hne Hk. rewrite Hslots in Hk. rewrite decide_False in Hk by done.
      by case_decide. }
    split; [split|].
    + intros i p Hi. rewrite Hnext. destruct (decide (i = index)) as [->|Hne].
      * rewrite Hslots, decide_True in Hi by done. injection Hi as <-. simpl. lia.
      * apply Hold in Hi; [|done]. apply Hfresh in Hi. lia.
    + intros i j p Hi Hj.
      destruct (decide (i = index)) as [->|Hni], (decide (j = index)) as [->|Hnj];
        try done.
      * rewrite Hslots, decide_True in Hi by done. injection Hi as <-.
        apply Hold in Hj; [|done]. apply Hfresh in Hj. simpl in Hj. lia.
      * rewrite Hslots, decide_True in Hj by done. injection Hj as <-.
        apply Hold in Hi; [|done]. apply Hfresh in Hi. simpl in Hi. lia.
      * apply Hold in Hi, Hj; try done. by apply (Hinj i j p).
    + by rewrite Hslots, decide_True.
Qed.

Lemma registry_wf_new (canvas : nat) (now : Z) : registry_wf (Engine_new canvas now).
Proof. split; intros i; by destruct i. Qed.

Lemma getShaderProgramPool_registry_wf_witness :
  registry_wf (world_of (_getShaderProgramPool 3 (Engine_new 7 0)))
  /\ Array_get (_shaderProgramPools
                  (engine (world_of (_getShaderProgramPool 3 (Engine_new 7 0))))) 3
     = Some (mkPool 0).
Proof.
  apply (getShaderProgramPool_registry_wf (Engine_new 7 0) _ 3 (mkPool 0)).
  - apply registry_wf_new.
  - reflexivity.
Defined.

(** X4. An access that finds its slot empty leaves an array of exactly
    [index + 1] slots with the new pool in the last one: the array is
    extended when it was shorter and cut when it was longer, so no slot
    above [index] survives. *)
Theorem getShaderProgramPool_empty_length (w w' : World) (index : nat) pool :
  Array_get (_shaderProgramPools (engine w)) index = None ->
  _getShaderProgramPool index w = Ret pool w' ->
  length (_shaderProgramPools (engine w')) = (index + 1)%nat
  /\ pool = mkPool (nextPool w)
  /\ _shaderProgramPools (engine w') !! index = Some (Some pool)
  /\ forall k, (index < k)%nat ->
       Array_get (_shaderProgramPools (engine w')) k = None.
Proof.
  intros H Hget.
  destruct (_getShaderProgramPool_empty w index H) as (w1 & Hget1 & Hpools & _).
  rewrite Hget in Hget1. injection Hget1 as -> <-.
  assert (length (_shaderProgramPools (engine w')) = (index + 1)%nat) as Hlen.
  { rewrite Hpools, Array_set_length. case_decide.
    - unfold Array_truncate. rewrite length_take. lia.
    - lia. }
  split; [done|]. split; [done|]. split.
  - pose proof (Array_get_set
                  (if decide (index + 1 < length (_shaderProgramPools (engine w)))%nat
                   then Array_truncate (index + 1) (_shaderProgramPools (engine w))
                   else _shaderProgramPools (engine w))
                  index (mkPool (nextPool w))) as Hs.
    rewrite <- Hpools in Hs. unfold Array_get in Hs.
    destruct (_shaderProgramPools (engine w') !! index) as [[p|]|]; simpl in Hs;
      congruence.
  - intros k Hk. apply Array_get_ge. lia.
Qed.

Lemma getShaderProgramPool_empty_length_witness :
  length (_shaderProgramPools
            (engine (world_of (_getShaderProgramPool 1
               (engine_with_pools [None; None; None; Some (mkPool 0)] 1)))))
  = (1 + 1)%nat
  /\ mkPool 1 = mkPool (nextPool (engine_with_pools [None; None; None; Some (mkPool 0)] 1))
  /\ _shaderProgramPools
       (engine (world_of (_getShaderProgramPool 1
          (engine_with_pools [None; None; None; Some (mkPool 0)] 1)))) !! 1%nat
     = Some (Some (mkPool 1))
  /\ forall k, (1 < k)%nat ->
       Array_get (_shaderProgramPools
                    (engine (world_of (_getShaderProgramPool 1
                       (engine_with_pools [None; None; None; Some (mkPool 0)] 1))))) k
       = None.
Proof.
  apply (getShaderProgramPool_empty_length
           (engine_with_pools [None; None; None; Some (mkPool 0)] 1) _ 1 (mkPool 1));
    reflexivity.
Defined.

(** ** The timing settings *)


(** ** Frame pacing on the timer *)

(** The handler in timer mode: it arms the next timer and runs a frame. *)
Lemma _animate_timer (w : World) :
  _vSyncCount (engine w) = 0 -> _animate w = update (timer_armed w).
Proof.
  intros Hv. unfold _animate, setTimeout. unfold_monad.
  rewrite decide_False by (by intros ?). done.
Qed.

Lemma _animate_timer_alive (w : World) :
  alive w = true ->
  _vSyncCount (engine w) = 0 ->
  exists t active,
    world_of (_animate w) = frame_world t active (timer_armed w)
    /\ alive (frame_world t active (timer_armed w)) = true.
Proof.
  intros Halive Hv. rewrite (_animate_timer w Hv).
  assert (alive (timer_armed w) = true) as Ha by by rewrite (alive_ext w).
  destruct (update_alive _ Ha) as (t & active & Hupd & Hact).
  exists t, active. rewrite Hupd. split; [done|].
  by apply frame_world_alive.
Qed.

(** A timer that is the only one pending expires: its callback runs. *)
Lemma timerFires_single (w : World) (now : Z) (h : nat) cb d :
  timers w = [(h, cb, d)] ->
  world_of (timerFires h now w)
  = world_of (invoke cb (set_timers [] (set_wallClock now w))).
Proof.
  intros Ht. unfold timerFires. rewrite Ht. simpl.
  rewrite decide_True by done. simpl.
  rewrite filter_cons_False by (simpl; by intros ?). done.
Qed.

Lemma fire_pending_timer_pacing (d : Q) (w : World) (now : Z) :
  timer_pacing d w ->
  let w' := fire_pending_timer w now in
  timer_pacing (_targetFrameInterval (engine w)) w'
  /\ frames w' = S (frames w)
  /\ rafCallbacks w' = rafCallbacks w
  /\ _vSyncCounter (engine w') = _vSyncCounter (engine w)
  /\ _targetFrameInterval (engine w') = _targetFrameInterval (engine w)
  /\ timers w' = [(nextHandle w, Some CbAnimate, _targetFrameInterval (engine w))]
  /\ _timeoutId (engine w') = Some (nextHandle w).
Proof.
  intros (Halive & Ha & Hv & h & Ht). simpl. unfold fire_pending_timer.
  rewrite Ht. rewrite (timerFires_single w now h _ d Ht). unfold invoke.
  simpl world_of.
  set (w0 := set_timers [] (set_wallClock now w)).
  assert (alive w0 = true) as Halive0 by by rewrite (alive_ext w).
  destruct (_animate_timer_alive w0 Halive0 Hv) as (t & active & -> & Halive').
  rewrite frames_frame_world. simpl. rewrite Ha.
  repeat split; try done.
  exists (nextHandle w). simpl. by rewrite Ha.
Qed.

Lemma timer_loop_run (nows : list Z) (d : Q) (w : World) :
  timer_pacing d w ->
  let w' := foldl fire_pending_timer w nows in
  frames w' = (frames w + length nows)%nat
  /\ timer_pacing (if decide (nows = []) then d
                   else _targetFrameInterval (engine w)) w'
  /\ rafCallbacks w' = rafCallbacks w
  /\ _vSyncCounter (engine w') = _vSyncCounter (engine w)
  /\ _targetFrameInterval (engine w') = _targetFrameInterval (engine w).
Proof.
  revert d w. induction nows as [|now nows IH]; intros d w Hp; simpl.
  { split; [lia|]. split; [exact Hp|done]. }
  destruct (fire_pending_timer_pacing d w now Hp)
    as (Hp1 & Hf1 & Hr1 & Hc1 & Hi1 & _).
  destruct (IH _ _ Hp1) as (Hf & Hp' & Hr & Hc & Hi).
  cbv zeta in *. rewrite Hf, Hf1, Hr, Hr1, Hc, Hc1, Hi, Hi1.
  split; [lia|]. split; [|done].
  rewrite Hi1 in Hp'. by destruct (decide (nows = [])).
Qed.

(** X7. With [vSyncCount = 0] the loop paces itself: every expiry of its
    timer runs exactly one frame and arms exactly one new timer, whose
    delay is the current [targetFrameInterval].  It never asks for an
    animation frame and never touches the refresh-signal counter. *)
Theorem timer_frame_every_firing (w : World) (d : Q) (h : nat) :
  alive w = true ->
  _animate_field (engine w) = Some CbAnimate ->
  _vSyncCount (engine w) = 0 ->
  timers w = [(h, Some CbAnimate, d)] ->
  forall nows : list Z,
    let w' := foldl fire_pending_timer w nows in
    frames w' = (frames w + length nows)%nat
    /\ (exists h', timers w'
                   = [(h', Some CbAnimate,
                       if decide (nows = []) then d
                       else _targetFrameInterval (engine w))])
    /\ rafCallbacks w' = rafCallbacks w
    /\ _vSyncCounter (engine w') = _vSyncCounter (engine w).
Proof.
  intros Halive Ha Hv Ht nows.
  assert (timer_pacing d w) as Hp by (unfold timer_pacing; by eauto 10).
  destruct (timer_loop_run nows d w Hp) as (Hf & (_ & _ & _ & Ht') & Hr & Hc & _).
  done.
Qed.

Lemma timer_frame_every_firing_witness :
  let w' := foldl fire_pending_timer engine_timer [33; 50] in
  frames w' = (frames engine_timer + length [33; 50])%nat
  /\ (exists h', timers w'
                 = [(h', Some CbAnimate,
                     if decide ([33; 50] = []) then QArith_base.Qmake 1000 60
                     else _targetFrameInterval (engine engine_timer))])
  /\ rafCallbacks w' = rafCallbacks engine_timer
  /\ _vSyncCounter (engine w') = _vSyncCounter (engine engine_timer).
Proof.
  apply (timer_frame_every_firing engine_timer (QArith_base.Qmake 1000 60) 3
           eq_refl eq_refl eq_refl eq_refl [33; 50]).
Defined.



(** ** Switching between the two modes *)

Lemma Qfloor_below_1 (value : Q) :
  QArith_base.Qlt value (QArith_base.inject_Z 1) -> Z.max 0 (Qround.Qfloor value) = 0.
Proof.
  intros H1. assert (Qround.Qfloor value < 1); [|lia].
  rewrite QArith_base.Zlt_Qlt.
  eapply QArith_base.Qle_lt_trans; [apply Qround.Qfloor_le|exact H1].
Qed.

Lemma Qfloor_from_1 (value : Q) :
  QArith_base.Qle (QArith_base.inject_Z 1) value ->
  Z.max 0 (Qround.Qfloor value) = Qround.Qfloor value /\ 1 <= Qround.Qfloor value.
Proof.
  intros H1. assert (1 <= Qround.Qfloor value); [|lia].
  change 1 with (Qround.Qfloor (QArith_base.inject_Z 1)).
  by apply Qround.Qfloor_resp_le.
Qed.

(** The handler in refresh-driven mode on a live engine. *)
Lemma _animate_vsync_alive (w : World) (n c : Z) :
  alive w = true ->
  _animate_field (engine w) = Some CbAnimate ->
  _vSyncCount (engine w) = n -> 1 <= n ->
  _vSyncCounter (engine w) = c -> 1 <= c ->
  exists t active,
    world_of (_animate w)
    = if decide (c mod n = 0)
      then set_engine
             (set_vSyncCounter 1 (engine (frame_world t active (animate_armed w))))
             (frame_world t active (animate_armed w))
      else animate_armed w.
Proof.
  intros Halive Ha Hv Hn Hc Hc1.
  rewrite _animate_vsync by (rewrite ?Hv; [lia || done]).
  rewrite Hv, Hc. rewrite Z.rem_mod_nonneg by lia.
  assert (alive (animate_armed w) = true) as Halive0 by by rewrite (alive_ext w).
  destruct (update_alive _ Halive0) as (t & active & Hupd & _).
  exists t, active. case_decide; [|done].
  by rewrite (bind_Ret _ _ _ _ _ Hupd).
Qed.

(** X9. Setting [vSyncCount] below 1 while the loop waits for a refresh
    signal changes nothing at once: the request stays queued.  When that
    signal comes the handler runs a frame whatever the counter says, arms a
    timer with the current interval instead of asking for the next
    animation frame, and the loop is on the timer from then on. *)
Theorem vSync_off_switches_at_next_signal
    (w : World) (h : nat) (value : Q) (now : Z) :
  alive w = true ->
  _animate_field (engine w) = Some CbAnimate ->
  rafCallbacks w = [h] ->
  QArith_base.Qlt value (QArith_base.inject_Z 1) ->
  let w1 := world_of (vSyncCount_set value w) in
  let w2 := step w1 (OpRefreshSignal now) in
  rafCallbacks w1 = [h]
  /\ timers w1 = timers w
  /\ frames w2 = S (frames w)
  /\ rafCallbacks w2 = []
  /\ timers w2
     = timers w ++ [(nextHandle w, Some CbAnimate, _targetFrameInterval (engine w))]
  /\ _timeoutId (engine w2) = Some (nextHandle w)
  /\ _vSyncCounter (engine w2) = _vSyncCounter (engine w).
Proof.
  intros Halive Ha Hr Hval w1 w2. split; [done|]. split; [done|].
  unfold w2. simpl step. rewrite (refreshSignal_single w1 now h Hr).
  set (w0 := set_rafCallbacks [] (set_wallClock now w1)).
  assert (alive w0 = true) as Halive0 by by rewrite (alive_ext w).
  assert (_vSyncCount (engine w0) = 0) as Hv by (simpl; by apply Qfloor_below_1).
  destruct (_animate_timer_alive w0 Halive0 Hv) as (t & active & -> & _).
  rewrite frames_frame_world. simpl. by rewrite Ha.
Qed.

Lemma vSync_off_switches_at_next_signal_witness :
  let w := world_of (resume (Engine_new 7 0)) in
  let w1 := world_of (vSyncCount_set (QArith_base.Qmake 1 2) w) in
  let w2 := step w1 (OpRefreshSignal 16) in
  rafCallbacks w1 = [1%nat]
  /\ timers w1 = timers w
  /\ frames w2 = S (frames w)
  /\ rafCallbacks w2 = []
  /\ timers w2
     = timers w ++ [(nextHandle w, Some CbAnimate, _targetFrameInterval (engine w))]
  /\ _timeoutId (engine w2) = Some (nextHandle w)
  /\ _vSyncCounter (engine w2) = _vSyncCounter (engine w).
Proof.
  apply (vSync_off_switches_at_next_signal (world_of (resume (Engine_new 7 0))) 1
           (QArith_base.Qmake 1 2) 16 eq_refl eq_refl eq_refl eq_refl).
Defined.

(** X10. Setting [vSyncCount] to 1 or more while the loop waits for its
    timer leaves the timer armed.  When it expires the handler asks for an
    animation frame instead of arming a new timer, and runs a frame only if
    the signal counter stands at a multiple of the new count. *)
Theorem vSync_on_switches_at_next_timer
    (w : World) (h : nat) (d : Q) (value : Q) (now : Z) :
  alive w = true ->
  _animate_field (engine w) = Some CbAnimate ->
  timers w = [(h, Some CbAnimate, d)] ->
  1 <= _vSyncCounter (engine w) ->
  QArith_base.Qle (QArith_base.inject_Z 1) value ->
  let w1 := world_of (vSyncCount_set value w) in
  let w2 := fire_pending_timer w1 now in
  timers w1 = [(h, Some CbAnimate, d)]
  /\ timers w2 = []
  /\ rafCallbacks w2 = rafCallbacks w ++ [nextHandle w]
  /\ _requestId (engine w2) = Some (nextHandle w)
  /\ frames w2
     = (frames w
        + (if decide (_vSyncCounter (engine w) mod Qround.Qfloor value = 0)%Z
           then 1 else 0))%nat.
Proof.
  intros Halive Ha Ht Hc Hval w1 w2. split; [done|].
  destruct (Qfloor_from_1 value Hval) as [Hmax Hn].
  unfold w2, fire_pending_timer. simpl timers. rewrite Ht.
  rewrite (timerFires_single w1 now h _ d Ht). unfold invoke. simpl world_of.
  set (w0 := set_timers [] (set_wallClock now w1)).
  assert (alive w0 = true) as Halive0 by by rewrite (alive_ext w).
  destruct (_animate_vsync_alive w0 (Qround.Qfloor value) (_vSyncCounter (engine w))
              Halive0 Ha Hmax Hn eq_refl Hc) as (t & active & ->).
  case_decide.
  - change (frames (set_engine _ (frame_world t active (animate_armed w0))))
      with (frames (frame_world t active (animate_armed w0))).
    rewrite frames_frame_world. simpl.
    repeat split; try done;
      try (change (frames (animate_armed w0)) with (frames w); lia).
  - simpl.
    repeat split; try done;
      try (change (frames (animate_armed w0)) with (frames w); lia).
Qed.

Lemma vSync_on_switches_at_next_timer_witness :
  let w1 := world_of (vSyncCount_set (QArith_base.Qmake 5 2) engine_timer) in
  let w2 := fire_pending_timer w1 33 in
  timers w1 = [(3%nat, Some CbAnimate, QArith_base.Qmake 1000 60)]
  /\ timers w2 = []
  /\ rafCallbacks w2 = rafCallbacks engine_timer ++ [nextHandle engine_timer]
  /\ _requestId (engine w2) = Some (nextHandle engine_timer)
  /\ frames w2
     = (frames engine_timer
        + (if decide (_vSyncCounter (engine engine_timer)
                      mod Qround.Qfloor (QArith_base.Qmake 5 2) = 0)%Z
           then 1 else 0))%nat.
Proof.
  apply (vSync_on_switches_at_next_timer engine_timer 3 (QArith_base.Qmake 1000 60)
           (QArith_base.Qmake 5 2) 33 eq_refl eq_refl eq_refl);
    [vm_compute; discriminate | vm_compute; discriminate].
Defined.

(** ** Stopping a running loop *)

(** A refresh signal handled by a loop in refresh-driven mode leaves one
    request queued, and [_requestId] names it. *)
Lemma refreshSignal_tracked (n c : Z) (w : World) (now : Z) :
  1 <= n -> 1 <= c ->
  pacing n c w ->
  let w' := step w (OpRefreshSignal now) in
  rafCallbacks w' = [nextHandle w]
  /\ _requestId (engine w') = Some (nextHandle w)
  /\ timers w' = timers w
  /\ _timeoutId (engine w') = _timeoutId (engine w).
Proof.
  intros Hn Hc (Halive & Ha & Hv & Hcnt & h & Hr). simpl.
  rewrite (refreshSignal_single w now h Hr).
  set (w0 := set_rafCallbacks [] (set_wallClock now w)).
  assert (alive w0 = true) as Halive0 by by rewrite (alive_ext w).
  destruct (_animate_vsync_alive w0 n c Halive0 Ha Hv Hn Hcnt Hc)
    as (t & active & ->).
  by case_decide.
Qed.

Lemma pacing_run_timers (n c : Z) (signals : list Z) (w : World) :
  1 <= n -> 1 <= c ->
  pacing n c w ->
  let w' := exec (OpRefreshSignal <$> signals) w in
  (exists c', 1 <= c' /\ pacing n c' w')
  /\ timers w' = timers w
  /\ _timeoutId (engine w') = _timeoutId (engine w).
Proof.
  intros Hn Hc Hp. cbv zeta.
  induction signals as [|now signals IH] using rev_ind; [by eauto|].
  destruct IH as [(c' & Hc' & Hp') [Ht Hid]].
  rewrite fmap_app. unfold exec in *. rewrite foldl_app. simpl.
  set (w' := foldl step w (OpRefreshSignal <$> signals)) in *.
  pose proof (refreshSignal_pacing n c' w' now Hn Hc' Hp') as Hstep.
  destruct (refreshSignal_tracked n c' w' now Hn Hc' Hp') as (_ & _ & Ht' & Hid').
  cbv zeta in *. simpl step in *. rewrite Ht', Hid', Ht, Hid.
  split; [|done].
  case_decide; destruct Hstep as [Hp'' _]; [exists 1|exists (c' + 1)];
    (split; [lia|done]).
Qed.

Lemma pause_then_signals (w : World) (later : list Op) :
  (forall h, h ∈ rafCallbacks w -> _requestId (engine w) = Some h) ->
  (forall tm, tm ∈ timers w -> _timeoutId (engine w) = Some tm.1.1) ->
  Forall is_signal later ->
  let w1 := world_of (pause w) in
  rafCallbacks w1 = [] /\ timers w1 = []
  /\ _isPaused (engine w1) = true
  /\ trace (exec later w1) = trace w.
Proof.
  intros Hraf Htm Hsig w1.
  assert (rafCallbacks w1 = []) as Hr.
  { unfold w1. rewrite pause_rafCallbacks.
    destruct (_requestId (engine w)) as [h|] eqn:Hrid.
    - apply filter_none. intros x Hx Hne. apply Hraf in Hx. congruence.
    - destruct (rafCallbacks w) as [|x ?]; [done|].
      by specialize (Hraf x ltac:(left)). }
  assert (timers w1 = []) as Ht.
  { unfold w1. rewrite pause_timers.
    destruct (_timeoutId (engine w)) as [h|] eqn:Htid.
    - apply filter_none. intros x Hx Hne. apply Htm in Hx. congruence.
    - destruct (timers w) as [|x ?]; [done|].
      by specialize (Htm x ltac:(left)). }
  split; [done|]. split; [done|]. split.
  { unfold w1, pause, cancelAnimationFrame, clearTimeout. unfold_monad. simpl.
    by destruct (_requestId (engine w)), (_timeoutId (engine w)). }
  rewrite <- (pause_trace w). fold w1.
  revert Hr Ht. generalize w1 as v. clear w1.
  induction Hsig as [|op ops Hop _ IH]; intros v Hr Ht; [done|].
  change (exec (op :: ops) v) with (exec ops (step v op)).
  destruct (step_signal_idle v op Hr Ht Hop) as (Hr' & Ht' & Htr').
  by rewrite IH.
Qed.

(** X11. [pause()] stops the loop for good whenever [_requestId] and
    [_timeoutId] name every wake-up that is queued: it cancels them all,
    and then no refresh signal and no timer expiry, however many and
    however late, runs a frame or makes any call. *)
Theorem pause_stops_known_loop (w : World) (later : list Op) :
  (forall h, h ∈ rafCallbacks w -> _requestId (engine w) = Some h) ->
  (forall tm, tm ∈ timers w -> _timeoutId (engine w) = Some tm.1.1) ->
  Forall is_signal later ->
  let w1 := world_of (pause w) in
  rafCallbacks w1 = [] /\ timers w1 = []
  /\ _isPaused (engine w1) = true
  /\ trace (exec later w1) = trace w.
Proof. apply pause_then_signals. Qed.

Lemma pause_stops_known_loop_witness :
  let w := exec [OpResume; OpRefreshSignal 16] (Engine_new 7 0) in
  let w1 := world_of (pause w) in
  rafCallbacks w1 = [] /\ timers w1 = []
  /\ _isPaused (engine w1) = true
  /\ trace (exec [OpRefreshSignal 33; OpTimerFires 2 50; OpRefreshSignal 66] w1)
     = trace w.
Proof.
  apply (pause_stops_known_loop
           (exec [OpResume; OpRefreshSignal 16] (Engine_new 7 0))
           [OpRefreshSignal 33; OpTimerFires 2 50; OpRefreshSignal 66]).
  - intros h Hh. vm_compute in Hh. apply list_elem_of_singleton in Hh as ->.
    reflexivity.
  - intros tm Htm. vm_compute in Htm. by apply elem_of_nil in Htm.
  - repeat constructor.
Defined.

(** X12. A loop in refresh-driven mode that has handled at least one
    signal is stopped by [pause()]: the request queued by the handler is
    the one [_requestId] names, [pause()] cancels it, and no later signal
    makes any call. *)
Theorem pause_after_signal_stops (w : World) (n : Z) (h : nat) :
  1 <= n ->
  alive w = true ->
  _animate_field (engine w) = Some CbAnimate ->
  _vSyncCount (engine w) = n ->
  1 <= _vSyncCounter (engine w) ->
  rafCallbacks w = [h] ->
  timers w = [] ->
  forall (signals : list Z) (now : Z) (later : list Op),
    Forall is_signal later ->
    let w1 := exec (OpRefreshSignal <$> signals ++ [now]) w in
    let w2 := world_of (pause w1) in
    rafCallbacks w2 = [] /\ timers w2 = []
    /\ _isPaused (engine w2) = true
    /\ trace (exec later w2) = trace w1.
Proof.
  intros Hn Halive Ha Hv Hc Hr Ht signals now later Hlater w1.
  assert (pacing n (_vSyncCounter (engine w)) w) as Hp
    by (unfold pacing; by eauto 10).
  destruct (pacing_run_timers n _ signals w Hn Hc Hp)
    as [(c' & Hc' & Hp') [Ht' _]].
  destruct (refreshSignal_tracked n c' _ now Hn Hc' Hp') as (Hr1 & Hid1 & Ht1 & _).
  assert (w1 = step (exec (OpRefreshSignal <$> signals) w) (OpRefreshSignal now))
    as Hw1.
  { unfold w1, exec. by rewrite fmap_app, foldl_app. }
  cbv zeta in *. rewrite <- Hw1 in Hr1, Hid1, Ht1.
  apply pause_then_signals; [| |done].
  - intros x Hx. rewrite Hr1 in Hx.
    apply list_elem_of_singleton in Hx as ->. done.
  - intros tm Htm. rewrite Ht1, Ht', Ht in Htm. by apply elem_of_nil in Htm.
Qed.

Lemma pause_after_signal_stops_witness :
  let w1 := exec (OpRefreshSignal <$> [16; 33] ++ [50]) engine_vsync3 in
  let w2 := world_of (pause w1) in
  rafCallbacks w2 = [] /\ timers w2 = []
  /\ _isPaused (engine w2) = true
  /\ trace (exec [OpRefreshSignal 66; OpRefreshSignal 83] w2) = trace w1.
Proof.
  apply (pause_after_signal_stops engine_vsync3 3 1
           ltac:(lia) eq_refl eq_refl eq_refl ltac:(vm_compute; discriminate)
           eq_refl eq_refl [16; 33] 50 [OpRefreshSignal 66; OpRefreshSignal 83]).
  repeat constructor.
Defined.

(** ** After [destroy] *)











(** X14. [destroy()] on an engine whose active scene is [null] fails with
    a [TypeError] after it has fired the shutdown event and the shutdown
    hooks, paused the engine and cleared [_animate]: the scene manager, the
    clock and the other owned objects are not released.  The engine does
    not count as destroyed, and the next [destroy()] fires the shutdown
    event and hooks again and fails the same way. *)
Theorem destroy_without_active_scene (w : World) (sm : SceneManager) :
  _sceneManager (engine w) = Some sm ->
  _activeScene sm = None ->
  exists w1 w2,
    destroy w = Throw TypeError w1
    /\ trace w1 = trace w ++ [Trigger "shutdown"; EngineFeature "shutdown" []]
    /\ _sceneManager (engine w1) = Some sm
    /\ _time (engine w1) = _time (engine w)
    /\ _resourceManager (engine w1) = _resourceManager (engine w)
    /\ _isPaused (engine w1) = true
    /\ _animate_field (engine w1) = None
    /\ destroy w1 = Throw TypeError w2
    /\ trace w2 = trace w1 ++ [Trigger "shutdown"; EngineFeature "shutdown" []].
Proof.
  intros Hsm Hnone.
  assert (forall v, _sceneManager (engine v) = Some sm ->
            exists v1, destroy v = Throw TypeError v1
              /\ trace v1 = trace v ++ [Trigger "shutdown"; EngineFeature "shutdown" []]
              /\ _sceneManager (engine v1) = Some sm
              /\ _time (engine v1) = _time (engine v)
              /\ _resourceManager (engine v1) = _resourceManager (engine v)
              /\ _isPaused (engine v1) = true
              /\ _animate_field (engine v1) = None) as Hstep.
  { intros v Hv. unfold destroy, pause, cancelAnimationFrame, clearTimeout.
    unfold_monad. rewrite Hv. simpl.
    destruct (_requestId (engine v)), (_timeoutId (engine v)); simpl;
      rewrite Hv; simpl; rewrite Hnone; simpl;
      (eexists; split; [reflexivity|]); simpl;
      by rewrite <- app_assoc. }
  destruct (Hstep w Hsm) as (w1 & Hd1 & Htr1 & Hsm1 & Ht1 & Hrm1 & Hp1 & Ha1).
  destruct (Hstep w1 Hsm1) as (w2 & Hd2 & Htr2 & _).
  exists w1, w2. by repeat split.
Qed.

Lemma destroy_without_active_scene_witness :
  exists w1 w2,
    destroy engine_without_scene = Throw TypeError w1
    /\ trace w1
       = trace engine_without_scene
         ++ [Trigger "shutdown"; EngineFeature "shutdown" []]
    /\ _sceneManager (engine w1) = Some {| _activeScene := None |}
    /\ _time (engine w1) = _time (engine engine_without_scene)
    /\ _resourceManager (engine w1) = _resourceManager (engine engine_without_scene)
    /\ _isPaused (engine w1) = true
    /\ _animate_field (engine w1) = None
    /\ destroy w1 = Throw TypeError w2
    /\ trace w2 = trace w1 ++ [Trigger "shutdown"; EngineFeature "shutdown" []].
Proof.
  apply (destroy_without_active_scene engine_without_scene
           {| _activeScene := None |}); reflexivity.
Defined.

(** X15. [destroy()] on a live engine with an active scene and with every
    queued wake-up known to [_requestId] or [_timeoutId] returns after, in
    this order: the shutdown event, the shutdown hooks, the cancellation of
    the wake-ups, the scene's own [destroy()], the resource manager's
    [gc()], a last component-destroy sweep and the removal of the event
    listeners.  Afterwards nothing is queued, the engine is paused, the
    scene manager, resource manager, canvas, clock and [_animate] are
    [null], the feature lists are empty, and the shader-program pools and
    the timing settings are as before. *)
Theorem destroy_teardown (w : World) (sm : SceneManager) (scene : nat) :
  _sceneManager (engine w) = Some sm ->
  _activeScene sm = Some scene ->
  _resourceManager (engine w) = Some tt ->
  (forall h, h ∈ rafCallbacks w -> _requestId (engine w) = Some h) ->
  (forall tm, tm ∈ timers w -> _timeoutId (engine w) = Some tm.1.1) ->
  exists w1,
    destroy w = Ret tt w1
    /\ trace w1
       = trace w ++ [Trigger "shutdown"; EngineFeature "shutdown" [];
                     SceneDestroy scene; ResourceGc; CallComponentDestory;
                     RemoveAllEventListeners]
    /\ rafCallbacks w1 = [] /\ timers w1 = []
    /\ _isPaused (engine w1) = true
    /\ destroyed w1
    /\ _resourceManager (engine w1) = None
    /\ _canvas (engine w1) = None
    /\ features (engine w1) = []
    /\ featureObjects w1 = []
    /\ _shaderProgramPools (engine w1) = _shaderProgramPools (engine w)
    /\ _vSyncCount (engine w1) = _vSyncCount (engine w)
    /\ _targetFrameRate (engine w1) = _targetFrameRate (engine w)
    /\ scenes w1 = scenes w.
Proof.
  intros Hsm Hact Hrm Hraf Htm.
  assert (match _requestId (engine w) with
          | Some h => filter (fun h' => h' ≠ h) (rafCallbacks w)
          | None => rafCallbacks w
          end = []) as Hr.
  { destruct (_requestId (engine w)) as [h|] eqn:Hrid.
    - apply filter_none. intros x Hx Hne. apply Hraf in Hx. congruence.
    - destruct (rafCallbacks w) as [|x ?]; [done|].
      by specialize (Hraf x ltac:(left)). }
  assert (match _timeoutId (engine w) with
          | Some h => filter (fun t => t.1.1 ≠ h) (timers w)
          | None => timers w
          end = []) as Ht.
  { destruct (_timeoutId (engine w)) as [h|] eqn:Htid.
    - apply filter_none. intros x Hx Hne. apply Htm in Hx. congruence.
    - destruct (timers w) as [|x ?]; [done|].
      by specialize (Htm x ltac:(left)). }
  unfold destroy, pause, cancelAnimationFrame, clearTimeout, destroyed.
  unfold_monad. rewrite Hsm. simpl.
  destruct (_requestId (engine w)), (_timeoutId (engine w)); simpl;
    rewrite Hsm; simpl; rewrite Hact; simpl; rewrite Hrm; simpl;
    (eexists; split; [reflexivity|]); simpl;
    rewrite <- !app_assoc; by repeat split.
Qed.

Lemma destroy_teardown_witness :
  exists w1,
    destroy (exec [OpResume; OpRefreshSignal 16] (Engine_new 7 0)) = Ret tt w1
    /\ trace w1
       = trace (exec [OpResume; OpRefreshSignal 16] (Engine_new 7 0))
         ++ [Trigger "shutdown"; EngineFeature "shutdown" [];
             SceneDestroy 0; ResourceGc; CallComponentDestory;
             RemoveAllEventListeners]
    /\ rafCallbacks w1 = [] /\ timers w1 = []
    /\ _isPaused (engine w1) = true
    /\ destroyed w1
    /\ _resourceManager (engine w1) = None
    /\ _canvas (engine w1) = None
    /\ features (engine w1) = []
    /\ featureObjects w1 = []
    /\ _shaderProgramPools (engine w1)
       = _shaderProgramPools (engine (exec [OpResume; OpRefreshSignal 16] (Engine_new 7 0)))
    /\ _vSyncCount (engine w1)
       = _vSyncCount (engine (exec [OpResume; OpRefreshSignal 16] (Engine_new 7 0)))
    /\ _targetFrameRate (engine w1)
       = _targetFrameRate (engine (exec [OpResume; OpRefreshSignal 16] (Engine_new 7 0)))
    /\ scenes w1 = scenes (exec [OpResume; OpRefreshSignal 16] (Engine_new 7 0)).
Proof.
  apply (destroy_teardown (exec [OpResume; OpRefreshSignal 16] (Engine_new 7 0))
           {| _activeScene := Some 0%nat |} 0).
  - vm_compute. reflexivity.
  - reflexivity.
  - vm_compute. reflexivity.
  - intros h Hh. vm_compute in Hh. apply list_elem_of_singleton in Hh as ->.
    vm_compute. reflexivity.
  - intros tm Htm. vm_compute in Htm. by apply elem_of_nil in Htm.
Defined.

(** ** [run] *)

(** X16. A new engine started with [run()] fires the pre-load hooks,
    resets the clock, queues one animation-frame request and announces
    ["run"]; with the default [vSyncCount] of 1 it then runs exactly one
    frame on every refresh signal. *)
Theorem run_new_engine (canvas : nat) (t0 : Z) (signals : list Z) :
  let w0 := world_of (run (Engine_new canvas t0)) in
  run (Engine_new canvas t0) = Ret tt w0
  /\ trace w0 = [HardwareRendererInit canvas; EngineFeature "preLoad" [];
                 TimeReset; Trigger "run"]
  /\ _isPaused (engine w0) = false
  /\ rafCallbacks w0 = [1%nat] /\ timers w0 = []
  /\ frames (exec (OpRefreshSignal <$> signals) w0) = length signals.
Proof.
  intros w0. split; [reflexivity|]. split; [reflexivity|].
  split; [reflexivity|]. split; [reflexivity|]. split; [reflexivity|].
  assert (pacing 1 1 w0) as Hp.
  { unfold pacing. repeat split; try reflexivity. by exists 1%nat. }
  destruct (pacing_run 1 1 signals w0 ltac:(lia) ltac:(lia) Hp) as [_ Hf].
  cbv zeta in Hf. change (frames w0) with 0%nat in Hf.
  rewrite !Z.div_1_r in Hf. lia.
Qed.

(** X17. [run()] on an engine that is already running fires the pre-load
    hooks and the ["run"] event again and does nothing else: no second
    wake-up is queued and the clock is not reset. *)
Theorem run_while_running (w : World) :
  _isPaused (engine w) = false ->
  run w = Ret tt (set_trace (trace w ++ [EngineFeature "preLoad" []; Trigger "run"]) w).
Proof.
  intros Hp. unfold run, resume. unfold_monad. simpl. rewrite Hp. simpl.
  by rewrite set_trace_set_trace, <- app_assoc.
Qed.

Lemma run_while_running_witness :
  run (world_of (run (Engine_new 7 0)))
  = Ret tt (set_trace (trace (world_of (run (Engine_new 7 0)))
                       ++ [EngineFeature "preLoad" []; Trigger "run"])
              (world_of (run (Engine_new 7 0)))).
Proof. apply (run_while_running (world_of (run (Engine_new 7 0)))). reflexivity. Defined.

(** ** More on the render pass *)

Lemma filter_Permutation_bool {A} (f : A -> bool) (l l' : list A) :
  Permutation l l' -> Permutation (List.filter f l) (List.filter f l').
Proof.
  induction 1 as [|x l l' _ IH|x y l|l l' l'' _ IH1 _ IH2]; simpl.
  - done.
  - destruct (f x); [by constructor|done].
  - destruct (f x), (f y); try done. apply perm_swap.
  - by etrans.
Qed.

Lemma camera_calls_camera_events scene (cs : list Camera) :
  List.filter is_camera_call (flat_map (camera_events scene) cs)
  = flat_map (camera_block scene) (List.filter renderable cs).
Proof.
  induction cs as [|c cs IH]; simpl; [done|].
  rewrite List.filter_app, IH. unfold camera_events, renderable.
  by destruct (enabled c && isActiveInHierarchy c).
Qed.

(** X18. In a render pass every camera of the scene that is enabled and on
    an active entity is rendered exactly once, none is rendered twice or
    left out, and each one's [render()] is bracketed by its own hooks: the
    calls made for cameras are, camera after camera, begin-render,
    pre-render hook, render, post-render hook, end-render. *)
Theorem render_pass_brackets (w : World) (scene : nat) (sc : Scene) (t : Time) :
  _time (engine w) = Some t ->
  scenes w !! scene = Some sc ->
  exists w' evs cams,
    _render scene w = Ret tt w'
    /\ trace w' = trace w ++ evs
    /\ Permutation cams (List.filter renderable (_activeCameras sc))
    /\ List.filter is_camera_call evs = flat_map (camera_block scene) cams.
Proof.
  intros Ht Hsc.
  destruct (_render_scene_after w scene sc t Ht Hsc) as (w' & Hr & _ & Htr & _).
  exists w', (render_events (deltaTime t) scene (_activeCameras sc)),
    (List.filter renderable (Array_sort compareCameras (_activeCameras sc))).
  split; [done|]. split; [done|]. split.
  - apply filter_Permutation_bool, Array_sort_perm.
  - unfold render_events. destruct (_activeCameras sc) as [|c cs] eqn:Hcs; [done|].
    cbn [List.filter is_camera_call camera_of].
    rewrite List.filter_app, camera_calls_camera_events. simpl.
    by rewrite app_nil_r.
Qed.

Lemma render_pass_brackets_witness :
  exists w' evs cams,
    _render 0 (engine_with_cameras [cam_disabled 0 3; cam 1 2; cam 2 1]) = Ret tt w'
    /\ trace w'
       = trace (engine_with_cameras [cam_disabled 0 3; cam 1 2; cam 2 1]) ++ evs
    /\ Permutation cams (List.filter renderable [cam_disabled 0 3; cam 1 2; cam 2 1])
    /\ List.filter is_camera_call evs = flat_map (camera_block 0) cams.
Proof.
  apply (render_pass_brackets
           (engine_with_cameras [cam_disabled 0 3; cam 1 2; cam 2 1]) 0
           (scene_with [cam_disabled 0 3; cam 1 2; cam 2 1]) (Time_new 0));
    reflexivity.
Defined.

(** X19. A render pass over a scene without cameras still updates the
    renderers and the scene's shader data, then only logs that there is no
    active camera: no camera hook is called, the element pool is not
    trimmed, and nothing but the trace changes. *)
Theorem render_pass_without_cameras (w : World) (scene : nat) (sc : Scene) (t : Time) :
  _time (engine w) = Some t ->
  scenes w !! scene = Some sc ->
  _activeCameras sc = [] ->
  _render scene w
  = Ret tt (set_trace
              (trace w ++ [CallRendererOnUpdate (deltaTime t);
                           UpdateShaderData scene;
                           LoggerDebug "NO active camera."]) w).
Proof.
  intros Ht Hsc Hcs. rewrite (_render_eq w scene sc t Ht Hsc).
  unfold render_events, render_scenes. rewrite Hcs. by destruct w.
Qed.

Lemma render_pass_without_cameras_witness :
  _render 0 (Engine_new 7 0)
  = Ret tt (set_trace
              (trace (Engine_new 7 0)
               ++ [CallRendererOnUpdate (deltaTime (Time_new 0));
                   UpdateShaderData 0; LoggerDebug "NO active camera."])
              (Engine_new 7 0)).
Proof.
  apply (render_pass_without_cameras (Engine_new 7 0) 0 (scene_with []) (Time_new 0));
    reflexivity.
Defined.



(** ** Frames and the rest of the state *)



(** [vsync_frame_period] at a counter of 2 with [vSyncCount = 3]. *)
Lemma vsync_frame_period_witness :
  let w := exec [OpRefreshSignal 16] engine_vsync3 in
  let w' := exec (OpRefreshSignal <$> [33; 50]) w in
  let m := Z.of_nat (length [33; 50]) in
  frames (step w' (OpRefreshSignal 66))
  = (frames w' + (if decide ((2 + m) mod 3 = 0)%Z then 1 else 0))%nat
  /\ Z.of_nat (frames w')
     = Z.of_nat (frames w) + (2 - 1 + m) / 3 - (2 - 1) / 3.
Proof.
  apply (vsync_frame_period (exec [OpRefreshSignal 16] engine_vsync3) 3 2 2
           ltac:(lia) ltac:(lia) eq_refl eq_refl eq_refl eq_refl eq_refl
           [33; 50] 66).
Defined.

(** ** [pause] and [resume] together *)

Lemma filter_idemp {A} (P : A -> Prop) `{!forall x, Decision (P x)} (l : list A) :
  filter P (filter P l) = filter P l.
Proof.
  induction l as [|x l IH]; [done|].
  rewrite (filter_cons P x l). case_decide; [|done].
  by rewrite filter_cons_True, IH.
Qed.

(** X23. [pause()] twice is [pause()] once: the second call finds nothing
    left to cancel and changes nothing. *)
Theorem pause_idempotent (w : World) :
  pause (world_of (pause w)) = Ret tt (world_of (pause w)).
Proof.
  unfold pause, cancelAnimationFrame, clearTimeout. unfold_monad. simpl.
  destruct (_requestId (engine w)) as [h|] eqn:Hr,
           (_timeoutId (engine w)) as [h'|] eqn:Ht; simpl; rewrite ?Hr, ?Ht; simpl;
    rewrite ?filter_idemp; by destruct w as [[] ? ? ? ? ? ? ? ?].
Qed.

(** X24. [pause()] followed by [resume()] restarts a loop whose queued
    wake-ups are all known to [_requestId] and [_timeoutId]: the old
    wake-ups are cancelled, exactly one animation-frame request is queued
    (also when the loop ran on its timer), the clock is reset once, and the
    refresh-signal counter goes on from where it stood. *)
Theorem pause_resume_restarts (w : World) (t : Time) :
  _time (engine w) = Some t ->
  _animate_field (engine w) = Some CbAnimate ->
  (forall h, h ∈ rafCallbacks w -> _requestId (engine w) = Some h) ->
  (forall tm, tm ∈ timers w -> _timeoutId (engine w) = Some tm.1.1) ->
  let w1 := world_of (pause w) in
  let w2 := world_of (resume w1) in
  resume w1 = Ret tt w2
  /\ _isPaused (engine w2) = false
  /\ rafCallbacks w2 = [nextHandle w]
  /\ timers w2 = []
  /\ trace w2 = trace w ++ [TimeReset]
  /\ _time (engine w2) = Some (Time_reset (wallClock w) t)
  /\ _vSyncCounter (engine w2) = _vSyncCounter (engine w).
Proof.
  intros Ht Ha Hraf Htm w1 w2.
  destruct (pause_then_signals w [] Hraf Htm ltac:(constructor))
    as (Hr1 & Ht1 & Hp1 & _).
  fold w1 in Hr1, Ht1, Hp1.
  assert (_time (engine w1) = Some t /\ _animate_field (engine w1) = Some CbAnimate
          /\ nextHandle w1 = nextHandle w /\ wallClock w1 = wallClock w
          /\ _vSyncCounter (engine w1) = _vSyncCounter (engine w))
    as (Ht' & Ha' & Hn' & Hw' & Hc').
  { unfold w1, pause, cancelAnimationFrame, clearTimeout. unfold_monad. simpl.
    by destruct (_requestId (engine w)), (_timeoutId (engine w)). }
  unfold w2. rewrite (resume_paused w1 t Hp1 Ht' Ha'). simpl.
  rewrite Hr1, Ht1, Hn', Hw', Hc'. unfold w1. rewrite pause_trace.
  by repeat split.
Qed.

Lemma pause_resume_restarts_witness :
  let w := fire_pending_timer engine_timer 33 in
  let w1 := world_of (pause w) in
  let w2 := world_of (resume w1) in
  resume w1 = Ret tt w2
  /\ _isPaused (engine w2) = false
  /\ rafCallbacks w2 = [nextHandle w]
  /\ timers w2 = []
  /\ trace w2 = trace w ++ [TimeReset]
  /\ _time (engine w2) = Some (Time_reset (wallClock w) (mkTime 17 33 33))
  /\ _vSyncCounter (engine w2) = _vSyncCounter (engine w).
Proof.
  apply (pause_resume_restarts (fire_pending_timer engine_timer 33) (mkTime 17 33 33)).
  - vm_compute. reflexivity.
  - vm_compute. reflexivity.
  - intros h Hh. vm_compute in Hh. by apply elem_of_nil in Hh.
  - intros tm Htm. vm_compute in Htm. apply list_elem_of_singleton in Htm as ->.
    vm_compute. reflexivity.
Defined.

(** X25. An engine whose [destroy()] failed half-way (its [_animate] is
    already [null], its clock is not) cannot be started again: [resume()]
    marks it running and resets the clock, then fails with a [TypeError]
    when it asks for an animation frame with no callback; nothing is
    queued, so no frame will run although [isPaused] is now [false]. *)
Theorem resume_without_animate (w : World) (t : Time) :
  _isPaused (engine w) = true ->
  _time (engine w) = Some t ->
  _animate_field (engine w) = None ->
  exists w1,
    resume w = Throw TypeError w1
    /\ _isPaused (engine w1) = false
    /\ rafCallbacks w1 = rafCallbacks w
    /\ timers w1 = timers w
    /\ trace w1 = trace w ++ [TimeReset]
    /\ resume w1 = Ret tt w1.
Proof.
  intros Hp Ht Ha. unfold resume at 1, Time_reset_m, requestAnimationFrame.
  unfold_monad. rewrite Hp. simpl. rewrite Ht. simpl. rewrite Ha.
  eexists. split; [reflexivity|]. repeat split; try done;
    by apply resume_running.
Qed.

Lemma resume_without_animate_witness :
  exists w1,
    resume (world_of (destroy engine_without_scene)) = Throw TypeError w1
    /\ _isPaused (engine w1) = false
    /\ rafCallbacks w1 = rafCallbacks (world_of (destroy engine_without_scene))
    /\ timers w1 = timers (world_of (destroy engine_without_scene))
    /\ trace w1 = trace (world_of (destroy engine_without_scene)) ++ [TimeReset]
    /\ resume w1 = Ret tt w1.
Proof.
  apply (resume_without_animate (world_of (destroy engine_without_scene))
           (Time_new 0)); vm_compute; reflexivity.
Defined.

(** ** Two loops at once *)

(** C4. With [vSyncCount >= 1] a running engine is meant to execute a
    frame once in every [vSyncCount] refresh signals.  It does not after
    [resume(); pause(); resume()]: the request of the first [resume()] was
    never cancelled, two requests are queued, and the two handlers share
    one counter.  At [vSyncCount = 2] every signal runs a frame, at
    [vSyncCount = 1] every signal runs two. *)
Theorem two_loops_break_the_pacing :
  let w1 := exec [OpResume; OpPause; OpResume] (Engine_new 7 0) in
  let w2 := world_of (vSyncCount_set (QArith_base.Qmake 2 1) w1) in
  _isPaused (engine w1) = false
  /\ rafCallbacks w1 = [1%nat; 2%nat]
  /\ _vSyncCount (engine w2) = 2
  /\ _vSyncCounter (engine w2) = 1
  /\ (fun signals => frames (exec (OpRefreshSignal <$> signals) w2))
       <$> [[]; [16]; [16; 33]; [16; 33; 50]; [16; 33; 50; 66]]
     = [0; 1; 2; 3; 4]%nat
  /\ (fun signals => frames (exec (OpRefreshSignal <$> signals) w1))
       <$> [[]; [16]; [16; 33]; [16; 33; 50]; [16; 33; 50; 66]]
     = [0; 2; 4; 6; 8]%nat.
Proof. vm_compute. repeat split; reflexivity. Qed.

(** C9. Two calls of [resume()] in a row are meant to leave exactly one
    wake-up pending.  They do not on an engine paused right after a
    [resume()]: the request of that earlier [resume()] is still queued, the
    first of the two calls adds a second one, and from then on every
    refresh signal runs [update()] twice.  The second of the two calls is
    the no-op it should be. *)
Theorem resume_twice_after_pause_two_wakeups :
  let w := exec [OpResume; OpPause] (Engine_new 7 0) in
  let w2 := exec [OpResume; OpResume] w in
  _isPaused (engine w) = true
  /\ rafCallbacks w = [1%nat]
  /\ w2 = exec [OpResume] w
  /\ _isPaused (engine w2) = false
  /\ rafCallbacks w2 = [1%nat; 2%nat] /\ timers w2 = []
  /\ frames w2 = 0%nat
  /\ frames (exec [OpRefreshSignal 16] w2) = 2%nat
  /\ frames (exec [OpRefreshSignal 16; OpRefreshSignal 33] w2) = 4%nat.
Proof. vm_compute. repeat split; reflexivity. Qed.
